(** * github-api: a shallow embedding of [index.js]

    [index.js] exports an authenticated-client getter ([getGithubAPI]),
    [dispatchEvent] and [resolveGithubProject].  This development embeds
    the module in Rocq and states its specification against the embedding.

    - JavaScript strings are lists of UTF-16 code units ([list N]).
    - A JavaScript object used as a map (the parsed [~/.netrc]) is a [gmap].
    - Synchronous code that can throw returns a [Result].
    - [async] code runs in a state monad over a [World] (module variable,
      credential file, object identities, event trace), with an outcome
      that is a value, a thrown error, or the end of the process.
    - Everything the module does not own (git, the terminal user, the
      GitHub REST API) is an oracle in [Env]. *)

From Stdlib Require Import String Ascii NArith Lia.
From stdpp Require Import base option list gmap.
From Equations Require Import Equations.

Local Open Scope N_scope.

(** ** JavaScript strings *)

Module JsString.

(** One UTF-16 code unit per element. *)
Abbreviation jsstring := (list N).

(** An ASCII literal as a JavaScript string. *)
Definition js (s : string) : jsstring :=
  N_of_ascii <$> list_ascii_of_string s.

(** ECMAScript [LineTerminator]: LF, CR, LS, PS. *)
Definition is_line_terminator (c : N) : bool :=
  (c =? 10) || (c =? 13) || (c =? 8232) || (c =? 8233).

(** ECMAScript [WhiteSpace]: TAB, VT, FF, ZWNBSP and category Zs. *)
Definition is_white_space (c : N) : bool :=
  (c =? 9) || (c =? 11) || (c =? 12) || (c =? 65279)
  || (c =? 32) || (c =? 160) || (c =? 5760)
  || ((8192 <=? c) && (c <=? 8202))
  || (c =? 8239) || (c =? 8287) || (c =? 12288).

Definition is_trimmable (c : N) : bool :=
  is_white_space c || is_line_terminator c.

Fixpoint trim_start (s : jsstring) : jsstring :=
  match s with
  | c :: s' => if is_trimmable c then trim_start s' else s
  | [] => []
  end.

(** [String.prototype.trim]. *)
Definition trim (s : jsstring) : jsstring :=
  reverse (trim_start (reverse (trim_start s))).

(** [String.prototype.split] with a one-code-unit separator. *)
Fixpoint split (sep : N) (s : jsstring) : list jsstring :=
  match s with
  | [] => [[]]
  | c :: s' =>
      if c =? sep then [] :: split sep s'
      else match split sep s' with
           | h :: t => (c :: h) :: t
           | [] => [[c]]
           end
  end.

(** [Array.prototype.join] with a one-code-unit separator. *)
Fixpoint join (sep : N) (l : list jsstring) : jsstring :=
  match l with
  | [] => []
  | [x] => x
  | x :: l' => x ++ sep :: join sep l'
  end.

(** [String.prototype.includes]. *)
Fixpoint includes (sub s : jsstring) : bool :=
  bool_decide (sub `prefix_of` s)
  || match s with
     | [] => false
     | _ :: s' => includes sub s'
     end.

(** JavaScript truthiness of a possibly-undefined string. *)
Definition truthy (v : option jsstring) : bool :=
  match v with
  | Some (_ :: _) => true
  | _ => false
  end.

(** A possibly-undefined string interpolated in a template literal. *)
Definition interpolate (v : option jsstring) : jsstring :=
  match v with
  | Some s => s
  | None => js "undefined"
  end.

End JsString.
Import JsString.

(** ** The regular expression [/github.com[:/](.+?)(?:\.git)?$/i] *)

Module Regex.

(** A pattern letter under the [i] flag (no [u] flag): the letter [p], given
    in lower case, matches itself and its ASCII capital.  [Canonicalize]
    never maps a code unit above 127 to one below 128, so nothing else
    matches. *)
Definition letter (p : string) (c : N) : bool :=
  match js p with
  | [l] => (c =? l) || (c =? l - 32)
  | _ => false
  end.

(** The pattern character [.]: any code unit but a line terminator. *)
Definition dot (c : N) : bool := negb (is_line_terminator c).

(** The class [[:/]]. *)
Definition colon_or_slash (c : N) : bool := (c =? 58) || (c =? 47).

(** [github.com[:/]], one matcher per pattern character. *)
Definition marker : list (N -> bool) :=
  [letter "g"; letter "i"; letter "t"; letter "h"; letter "u"; letter "b";
   dot;
   letter "c"; letter "o"; letter "m";
   colon_or_slash].

(** Match a sequence of single-character matchers at the head of [s];
    the result is the rest of the input. *)
Fixpoint match_chars (ps : list (N -> bool)) (s : jsstring) : option jsstring :=
  match ps, s with
  | [], _ => Some s
  | p :: ps', c :: s' => if p c then match_chars ps' s' else None
  | _ :: _, [] => None
  end.

(** The literal [\.]. *)
Definition full_stop (c : N) : bool := c =? 46.

(** [\.git], one matcher per pattern character; the [i] flag applies here
    as well. *)
Definition dot_git : list (N -> bool) :=
  [full_stop; letter "g"; letter "i"; letter "t"].

(** [(?:\.git)?$] on the rest of the input: the greedy optional group is
    tried first, then skipped. *)
Definition git_suffix_then_end (s : jsstring) : bool :=
  bool_decide (match_chars dot_git s = Some []) || bool_decide (s = []).

(** [(.+?)(?:\.git)?$]: the lazy group takes one more character at a time
    until the rest of the pattern matches.  [cap] is what the group holds
    so far. *)
Fixpoint lazy_group (cap s : jsstring) : option jsstring :=
  match s with
  | [] => None
  | c :: s' =>
      if dot c then
        if git_suffix_then_end s' then Some (cap ++ [c])
        else lazy_group (cap ++ [c]) s'
      else None
  end.

(** The whole pattern tried at the head of [s]; the result is group 1. *)
Definition match_here (s : jsstring) : option jsstring :=
  match match_chars marker s with
  | Some rest => lazy_group [] rest
  | None => None
  end.

(** [url.match(re)] for a non-global expression: the pattern is tried at
    each start index in turn, the first success wins.  The result is
    group 1 of the match, [None] when [match] returns [null]. *)
Fixpoint match_group1 (s : jsstring) : option jsstring :=
  match match_here s with
  | Some cap => Some cap
  | None =>
      match s with
      | [] => None
      | _ :: s' => match_group1 s'
      end
  end.

End Regex.

(** ** Synchronous results *)

(** A JavaScript [Error], identified by its message. *)
Record Error := mkError { error_message : jsstring }.

Inductive Result (A : Type) :=
| Ok (a : A)
| Throw (e : Error).
Arguments Ok {A} a.
Arguments Throw {A} e.

Definition result_bind {A B} (f : A -> Result B) (r : Result A) : Result B :=
  match r with
  | Ok a => f a
  | Throw e => Throw e
  end.

(** [try { body } catch { handler }] *)
Definition try_catch {A} (body : Result A) (handler : Error -> Result A) : Result A :=
  match body with
  | Ok a => Ok a
  | Throw e => handler e
  end.

#[global] Instance Result_bind : MBind Result := @result_bind.

(** ** Data model *)

(** [RepositoryRef] as [dispatchEvent] receives it: [repoId] is present when
    the object is a [GitHubRepositoryDescription]. *)
Record RepositoryRef := mkRef {
  ref_owner : jsstring;
  ref_repo : jsstring;
  ref_repoId : option jsstring;
}.

Record GitHubRepositoryDescription := mkDescription {
  owner : jsstring;
  repo : jsstring;
  repoId : jsstring;
}.

(** A [NetRCEntry]; every property may be missing from a parsed file. *)
Record NetRCEntry := mkEntry {
  machine : option jsstring;
  account : option jsstring;
  login : option jsstring;
  password : option jsstring;
  macdef : option jsstring;
}.

(** The object literal [{ login: name, password: token }]. *)
Definition login_password (name token : jsstring) : NetRCEntry :=
  mkEntry None None (Some name) (Some token) None.

(** [NetRC]: host name to entry. *)
Abbreviation NetRC := (gmap jsstring NetRCEntry).

(** An [octokit.Octokit] instance: its object identity and its [auth]
    option. *)
Record Octokit := mkOctokit {
  object_id : nat;
  auth : jsstring;
}.

(** What [dispatchEvent] resolves to. *)
Record Dispatched := mkDispatched { message : jsstring }.

(** ** The environment *)

(** The collaborators the module calls but does not own.  The interactive
    and remote ones are indexed by how many times they were used before, so
    that successive answers may differ. *)
Record Env := mkEnv {
  (** [execSync(cmd, { cwd, stdio: 'pipe' }).toString('utf8')]: the decoded
      standard output, or the error thrown when the command fails.
      Arguments: command, working directory. *)
  execSync : jsstring -> jsstring -> Result jsstring;
  (** [process.cwd()] *)
  process_cwd : jsstring;
  (** What the user types at the n-th username/token prompt. *)
  answer_credentials : nat -> jsstring * jsstring;
  (** What the user answers at the n-th "Save token to config?" prompt. *)
  answer_save : nat -> bool;
  (** The n-th REST request, when it is [users.getAuthenticated], sent with
      the given [auth]. *)
  users_getAuthenticated : nat -> jsstring -> Result ();
  (** The n-th REST request, when it is [repos.createDispatchEvent]:
      [auth], [owner], [repo], [event_type]. *)
  repos_createDispatchEvent :
    nat -> jsstring -> jsstring -> jsstring -> jsstring -> Result ();
}.

Section Resolver.

Variable env : Env.

Definition NOT_GITHUB_REMOTE : Error := mkError (js "NOT_GITHUB_REMOTE").
Definition not_in_a_git_repository : Error := mkError (js "Not in a git repository?").

(** The body of the [try] block of [resolveGithubProject]. *)
Definition resolve_body (dir : jsstring) : Result GitHubRepositoryDescription :=
  let run x := out ← execSync env x dir; Ok (trim out) in
  currentBranch ← run (js "git rev-parse --abbrev-ref HEAD");
  remoteBranch ← run (js "git rev-parse --abbrev-ref " ++ currentBranch ++ js "@{upstream}");
  let origin := head (split 47 remoteBranch) in
  url ← run (js "git remote get-url " ++ interpolate origin);
  match Regex.match_group1 url with
  | None =>
      (* [match] gave [null]: [repoId], [owner] and [repo] are undefined *)
      Throw NOT_GITHUB_REMOTE
  | Some repoId =>
      let parts := split 47 repoId in
      match parts !! 0%nat, parts !! 1%nat with
      | Some owner, Some repo =>
          if negb (truthy (Some owner)) || negb (truthy (Some repo))
          then Throw NOT_GITHUB_REMOTE
          else Ok (mkDescription owner repo repoId)
      | _, _ =>
          (* [owner] or [repo] is undefined *)
          Throw NOT_GITHUB_REMOTE
      end
  end.

Definition resolveGithubProject (dir : option jsstring) : Result GitHubRepositoryDescription :=
  let dir := default (process_cwd env) dir in
  try_catch (resolve_body dir) (fun _ => Throw not_in_a_git_repository).

End Resolver.

(** ** Asynchronous code *)

(** Observable effects, in order of occurrence. *)
Inductive Event :=
| EPromptCredentials (name token : jsstring)
| EPromptSave (save : bool)
| ENetrcSave (machines : NetRC)
| EWrite (symbol text : jsstring)
| EGetAuthenticated (auth : jsstring) (response : Result ())
| ECreateDispatchEvent (auth owner repo event_type : jsstring) (response : Result ())
| EExit (code : N).

Record World := mkWorld {
  (** the module variable [let github] *)
  github : option Octokit;
  (** the machines [netrc()] reads from [~/.netrc] *)
  netrc_file : NetRC;
  (** identity of the next object [new] creates *)
  next_object : nat;
  (** credential prompts answered so far *)
  asked : nat;
  (** save confirmations answered so far *)
  confirmed : nat;
  (** REST requests sent so far *)
  requests : nat;
  trace : list Event;
}.

(** How a computation ends: its promise resolves, it rejects, or
    [process.exit] ended the process. *)
Inductive Outcome (A : Type) :=
| Resolved (a : A)
| Rejected (e : Error)
| Exited (code : N).
Arguments Resolved {A} a.
Arguments Rejected {A} e.
Arguments Exited {A} code.

Definition Async (A : Type) : Type := World -> Outcome A * World.

Definition async_ret {A} (a : A) : Async A := fun w => (Resolved a, w).

Definition async_bind {A B} (f : A -> Async B) (c : Async A) : Async B :=
  fun w =>
    match c w with
    | (Resolved a, w') => f a w'
    | (Rejected e, w') => (Rejected e, w')
    | (Exited code, w') => (Exited code, w')
    end.

#[global] Instance Async_ret : MRet Async := @async_ret.
#[global] Instance Async_bind : MBind Async := @async_bind.

Definition throw {A} (e : Error) : Async A := fun w => (Rejected e, w).

(** A synchronous call made from asynchronous code. *)
Definition sync {A} (r : Result A) : Async A :=
  match r with
  | Ok a => mret a
  | Throw e => throw e
  end.

(** [try { body } catch (e) { handler }]: the end of the process is not
    caught. *)
Definition try_catch_async {A} (body : Async A) (handler : Error -> Async A) : Async A :=
  fun w =>
    match body w with
    | (Rejected e, w') => handler e w'
    | r => r
    end.

Definition emit (e : Event) (w : World) : World :=
  mkWorld (github w) (netrc_file w) (next_object w)
          (asked w) (confirmed w) (requests w) (trace w ++ [e]).

Section Program.

Variable env : Env.

(** *** Primitives *)

(** [netrc()], for a credential file that can be read: the machines it
    holds, none when the file is missing.  A file that exists and cannot be
    read makes the package throw; that run is not among the worlds. *)
Definition netrc : Async NetRC :=
  fun w => (Resolved (netrc_file w), w).

(** [netrc.save(machines)]: the call is recorded with the records it is
    given.  How the package writes them as text is its own matter; the
    world takes the next [netrc()] to read the same records. *)
Definition netrc_save (machines : NetRC) : Async () :=
  fun w =>
    (Resolved (),
     mkWorld (github w) machines (next_object w)
             (asked w) (confirmed w) (requests w)
             (trace w ++ [ENetrcSave machines])).

(** [write(symbol, text)], the two arguments without their styling. *)
Definition write (symbol text : jsstring) : Async () :=
  fun w => (Resolved (), emit (EWrite symbol text) w).

(** [process.exit(code)] *)
Definition process_exit {A} (code : N) : Async A :=
  fun w => (Exited code, emit (EExit code) w).

(** [inquirer.prompt] with the username and token questions. *)
Definition prompt_credentials : Async (jsstring * jsstring) :=
  fun w =>
    let '(name, token) := answer_credentials env (asked w) in
    (Resolved (name, token),
     mkWorld (github w) (netrc_file w) (next_object w)
             (S (asked w)) (confirmed w) (requests w)
             (trace w ++ [EPromptCredentials name token])).

(** [inquirer.prompt] with the [save] confirmation. *)
Definition prompt_save : Async bool :=
  fun w =>
    let save := answer_save env (confirmed w) in
    (Resolved save,
     mkWorld (github w) (netrc_file w) (next_object w)
             (asked w) (S (confirmed w)) (requests w)
             (trace w ++ [EPromptSave save])).

(** [new octokit.Octokit({ auth })] *)
Definition new_Octokit (auth : jsstring) : Async Octokit :=
  fun w =>
    (Resolved (mkOctokit (next_object w) auth),
     mkWorld (github w) (netrc_file w) (S (next_object w))
             (asked w) (confirmed w) (requests w) (trace w)).

(** One REST request: it resolves or rejects as the remote decides. *)
Definition request (response : Result ()) (e : Event) : Async () :=
  fun w =>
    let w' := mkWorld (github w) (netrc_file w) (next_object w)
                      (asked w) (confirmed w) (S (requests w))
                      (trace w ++ [e]) in
    match response with
    | Ok _ => (Resolved (), w')
    | Throw err => (Rejected err, w')
    end.

(** [api.users.getAuthenticated()] *)
Definition api_users_getAuthenticated (api : Octokit) : Async () :=
  fun w =>
    let response := users_getAuthenticated env (requests w) (auth api) in
    request response (EGetAuthenticated (auth api) response) w.

(** [api.repos.createDispatchEvent({ owner, repo, event_type })] *)
Definition api_repos_createDispatchEvent
    (api : Octokit) (owner repo event_type : jsstring) : Async () :=
  fun w =>
    let response :=
      repos_createDispatchEvent env (requests w) (auth api) owner repo event_type in
    request response (ECreateDispatchEvent (auth api) owner repo event_type response) w.

(** The template literal [`token ${token}`]. *)
Definition token_auth (token : jsstring) : jsstring := js "token " ++ token.

Definition github_com : jsstring := js "github.com".
Definition api_github_com : jsstring := js "api.github.com".

(** [a ?? b] *)
Definition nullish {A} (a b : option A) : option A :=
  match a with
  | Some x => Some x
  | None => b
  end.

(** *** [checkCredentials] *)

Definition checkCredentials (token : jsstring) : Async bool :=
  try_catch_async
    (api ← new_Octokit (token_auth token);
     _ ← api_users_getAuthenticated api;
     mret true)
    (fun e =>
       _ ← write (js "!") (error_message e);
       mret false).

(** *** [promptForToken] *)

(** The heavy multiplication sign printed before the fatal message. *)
Definition cross : jsstring := [10005].

(** Calls left before [promptForToken] stops for good: the measure of its
    recursion.  A retry always runs with the default bound. *)
Definition calls_left (attempts maxAttempts : option nat) : nat :=
  let a := default 0%nat attempts in
  let m := default 3%nat maxAttempts in
  if (a <? m)%nat then S (3 - a) else 0%nat.

Equations? promptForToken (rc : option NetRC) (attempts maxAttempts : option nat)
  : Async jsstring by wf (calls_left attempts maxAttempts) lt :=
promptForToken rc attempts maxAttempts
  with le_lt_dec (default 3%nat maxAttempts) (default 0%nat attempts) := {
  | left _ =>
      rc ← from_option mret netrc rc;
      _ ← write cross (js "Too many attempts");
      process_exit 1
  | right _ =>
      rc ← from_option mret netrc rc;
      '(name, token) ← prompt_credentials;
      valid ← checkCredentials token;
      if (valid : bool) then
        save ← prompt_save;
        _ ← (if (save : bool)
             then netrc_save (<[github_com := login_password name token]> rc)
             else mret ());
        mret token
      else
        promptForToken (Some rc) (Some (default 0 attempts + 1)%nat) None }.
Proof.
  unfold calls_left; simpl.
  destruct (Nat.ltb_spec (default 0 attempts) (default 3 maxAttempts))%nat;
    destruct (Nat.ltb_spec (default 0 attempts + 1) 3)%nat; lia.
Qed.

Arguments promptForToken : simpl never.

(** *** [getToken] *)

(** [rc['github.com']?.password ?? rc['api.github.com']?.password] *)
Definition stored_token (rc : NetRC) : option jsstring :=
  nullish (rc !! github_com ≫= password) (rc !! api_github_com ≫= password).

Definition getToken : Async jsstring :=
  rc ← netrc;
  try_catch_async
    (match stored_token rc with
     | Some token =>
         if negb (truthy (Some token))
         then throw (mkError (js "No token"))
         else mret token
     | None => throw (mkError (js "No token"))
     end)
    (fun _ => promptForToken (Some rc) None None).

(** *** [getGithubAPI], the default export *)

Definition getGithubAPI : Async Octokit :=
  fun w =>
    match github w with
    | Some cached => (Resolved cached, w)
    | None =>
        (token ← getToken;
         valid ← checkCredentials token;
         token ← (if negb valid then promptForToken None None None else mret token);
         new_Octokit (token_auth token)) w
    end.

(** *** [dispatchEvent] *)

Definition dispatchEvent (to : jsstring + RepositoryRef) (eventType : jsstring)
  : Async Dispatched :=
  '(owner, repo, repoId) ←
    match to with
    | inl dir =>
        d ← sync (resolveGithubProject env (Some dir));
        mret (owner d, repo d, Some (repoId d))
    | inr ref => mret (ref_owner ref, ref_repo ref, ref_repoId ref)
    end;
  let repoId := default (join 47 [owner; repo]) repoId in
  api ← getGithubAPI;
  _ ← api_repos_createDispatchEvent api owner repo eventType;
  mret (mkDispatched (js "(" ++ repoId ++ js ") " ++ eventType ++ js " event dispatched.")).

End Program.

(** The state of a fresh process. *)
Definition initial_world (file : NetRC) : World :=
  mkWorld None file 0 0 0 0 [].

(** * Vocabulary of the specification *)

(** ** Shapes of remote URLs *)

Module Forms.
Import Regex.

(** A path segment: not empty, no [/], no line terminator. *)
Definition segment (s : jsstring) : bool :=
  match s with
  | [] => false
  | _ => forallb (fun c => dot c && negb (c =? 47)) s
  end.

(** The whole of [mk] is one match of [github.com[:/]]. *)
Definition is_marker (mk : jsstring) : bool :=
  bool_decide (match_chars marker mk = Some []).

(** The whole of [g] is one match of [\.git]: [.git] in any mix of cases. *)
Definition is_dot_git (g : jsstring) : bool :=
  bool_decide (match_chars dot_git g = Some []).

(** The last four characters of [s] are a match of [\.git]. *)
Definition ends_in_dot_git (s : jsstring) : bool :=
  is_dot_git (drop (length s - 4) s).

(** [s] spells [pattern] (given in lower case) in any mix of cases. *)
Definition caseless (pattern s : jsstring) : Prop :=
  Forall2 (fun p c => c = p \/ c = p - 32) pattern s.

End Forms.

(** ** Worlds and events *)

Section Vocabulary.
Import Regex.

Variable env : Env.

(** What git reports in [dir]: the current branch has an upstream, and the
    fetch URL of the upstream's remote is [url] (once trimmed). *)
Definition upstream_fetch_url (dir url : jsstring) : Prop :=
  exists branch upstream out,
    execSync env (js "git rev-parse --abbrev-ref HEAD") dir = Ok branch /\
    execSync env (js "git rev-parse --abbrev-ref " ++ trim branch ++ js "@{upstream}") dir
      = Ok upstream /\
    execSync env (js "git remote get-url " ++ interpolate (head (split 47 (trim upstream)))) dir
      = Ok out /\
    trim out = url.

(** Why a resolution can fail. *)
Inductive ResolutionFailure (dir : jsstring) : Prop :=
| NotARepository e :
    execSync env (js "git rev-parse --abbrev-ref HEAD") dir = Throw e ->
    ResolutionFailure dir
| NoUpstream branch e :
    execSync env (js "git rev-parse --abbrev-ref HEAD") dir = Ok branch ->
    execSync env (js "git rev-parse --abbrev-ref " ++ trim branch ++ js "@{upstream}") dir
      = Throw e ->
    ResolutionFailure dir
| NoRemote branch upstream e :
    execSync env (js "git rev-parse --abbrev-ref HEAD") dir = Ok branch ->
    execSync env (js "git rev-parse --abbrev-ref " ++ trim branch ++ js "@{upstream}") dir
      = Ok upstream ->
    execSync env (js "git remote get-url " ++ interpolate (head (split 47 (trim upstream)))) dir
      = Throw e ->
    ResolutionFailure dir
| NotGithub url :
    upstream_fetch_url dir url ->
    match_group1 url = None ->
    ResolutionFailure dir
| NoOwnerOrRepo url id :
    upstream_fetch_url dir url ->
    match_group1 url = Some id ->
    truthy (split 47 id !! 0%nat) && truthy (split 47 id !! 1%nat) = false ->
    ResolutionFailure dir.

(** The token typed at the [a]-th credentials prompt, sent as the [r]-th
    request, is accepted by the remote. *)
Definition validates (r a : nat) : bool :=
  match users_getAuthenticated env r (token_auth (answer_credentials env a).2) with
  | Ok _ => true
  | Throw _ => false
  end.

(** The machines written by [netrc.save], one element per call, in order. *)
Definition saves (events : list Event) : list NetRC :=
  omap (fun e => match e with ENetrcSave m => Some m | _ => None end) events.

(** The interactive prompts among the events. *)
Definition is_prompt (e : Event) : bool :=
  match e with
  | EPromptCredentials _ _ | EPromptSave _ => true
  | _ => false
  end.

Definition prompts (events : list Event) : list Event :=
  List.filter is_prompt events.

(** The [createDispatchEvent] calls among the events:
    [owner], [repo], [event_type]. *)
Definition dispatches (events : list Event) : list (jsstring * jsstring * jsstring) :=
  omap (fun e => match e with
                 | ECreateDispatchEvent _ o r t _ => Some (o, r, t)
                 | _ => None
                 end) events.

(** The world after [checkCredentials(token)]. *)
Definition after_check (token : jsstring) (w : World) : World :=
  let response := users_getAuthenticated env (requests w) (token_auth token) in
  mkWorld (github w) (netrc_file w) (S (next_object w))
          (asked w) (confirmed w) (S (requests w))
          (trace w ++ EGetAuthenticated (token_auth token) response ::
             match response with
             | Ok _ => []
             | Throw e => [EWrite (js "!") (error_message e)]
             end).

(** The world after the user answered the credentials prompt. *)
Definition after_prompt (w : World) : World :=
  mkWorld (github w) (netrc_file w) (next_object w)
          (S (asked w)) (confirmed w) (requests w)
          (trace w ++ [EPromptCredentials (answer_credentials env (asked w)).1
                                          (answer_credentials env (asked w)).2]).

(** The world after one attempt of [promptForToken] whose token was
    refused. *)
Definition after_failed_attempt (w : World) : World :=
  after_check (answer_credentials env (asked w)).2 (after_prompt w).

(** The world after the attempt of [promptForToken] whose token was
    accepted; [rc] is the object the call holds. *)
Definition after_accepted_attempt (rc : NetRC) (w : World) : World :=
  let name := (answer_credentials env (asked w)).1 in
  let token := (answer_credentials env (asked w)).2 in
  let save := answer_save env (confirmed w) in
  let machines := <[github_com := login_password name token]> rc in
  mkWorld (github w) (if save then machines else netrc_file w)
          (S (next_object w)) (S (asked w)) (S (confirmed w)) (S (requests w))
          (trace w ++ [EPromptCredentials name token;
                       EGetAuthenticated (token_auth token) (Ok ());
                       EPromptSave save]
             ++ if save then [ENetrcSave machines] else []).

(** The world after the fatal message and [process.exit(1)]. *)
Definition after_exit (w : World) : World :=
  mkWorld (github w) (netrc_file w) (next_object w)
          (asked w) (confirmed w) (requests w)
          (trace w ++ [EWrite cross (js "Too many attempts"); EExit 1]).

(** The world after [new octokit.Octokit(...)]. *)
Definition after_new (w : World) : World :=
  mkWorld (github w) (netrc_file w) (S (next_object w))
          (asked w) (confirmed w) (requests w) (trace w).

(** What a computation may change without breaking the properties below:
    the module variable is kept, object identities only grow, and the new
    events hold no dispatch call. *)
Definition extends (w w' : World) : Prop :=
  github w' = github w /\
  (next_object w <= next_object w')%nat /\
  exists events, trace w' = trace w ++ events /\ dispatches events = [].

(** The most credential prompts a call [promptForToken(rc, attempts,
    maxAttempts)] can make: none when the bound is already reached, else
    one for this call and the retries the default bound of 3 leaves. *)
Definition prompt_budget (attempts maxAttempts : option nat) : nat :=
  let a := default 0%nat attempts in
  let m := default 3%nat maxAttempts in
  if (a <? m)%nat then Nat.max 1 (3 - a) else 0%nat.

(** The rest of [getGithubAPI] once [getToken] has returned [token]. *)
Definition validated_client (token : jsstring) : Async Octokit :=
  valid ← checkCredentials env token;
  token ← (if negb valid then promptForToken env None None None else mret token);
  new_Octokit (token_auth token).

(** The message of a successful dispatch. *)
Definition dispatched_message (repoId eventType : jsstring) : jsstring :=
  js "(" ++ repoId ++ js ") " ++ eventType ++ js " event dispatched.".

End Vocabulary.

(** The precondition of C6 as the specification words it: the credential
    file holds a token for [github.com] or for [api.github.com], and the
    remote accepts that token. *)
Definition stored_valid_token (env : Env) (w : World) : Prop :=
  exists host entry token,
    (host = github_com \/ host = api_github_com) /\
    netrc_file w !! host = Some entry /\
    password entry = Some token /\
    users_getAuthenticated env (requests w) (token_auth token) = Ok ().

(** * Example environments *)

Module Examples.

Definition command_failed : Error := mkError (js "Command failed").
Definition bad_credentials : Error := mkError (js "Bad credentials").

(** git in a checkout of branch [main], which tracks [origin/main], with
    [url] as the fetch URL of [origin]. *)
Definition git_checkout (url : jsstring) (cmd dir : jsstring) : Result jsstring :=
  if bool_decide (cmd = js "git rev-parse --abbrev-ref HEAD")
  then Ok (js "main" ++ [10])
  else if bool_decide (cmd = js "git rev-parse --abbrev-ref main@{upstream}")
  then Ok (js "origin/main" ++ [10])
  else if bool_decide (cmd = js "git remote get-url origin")
  then Ok (url ++ [10])
  else Throw command_failed.

(** git outside of any repository. *)
Definition git_nowhere (cmd dir : jsstring) : Result jsstring :=
  Throw command_failed.

(** A remote that accepts the token [good] and no other. *)
Definition accepts_good (n : nat) (auth : jsstring) : Result () :=
  if bool_decide (auth = js "token good") then Ok () else Throw bad_credentials.

(** A user who types the same token at every prompt. *)
Definition types (token : jsstring) (n : nat) : jsstring * jsstring :=
  (js "octocat", token).

Definition example_env (git : jsstring -> jsstring -> Result jsstring)
    (token : jsstring) (save : bool) : Env :=
  mkEnv git (js "/work") (types token) (fun _ => save)
        accepts_good (fun _ _ _ _ _ => Ok ()).

(** A credential file with one entry for [github.com]. *)
Definition one_token (token : jsstring) : NetRC :=
  {[ github_com := login_password (js "octocat") token ]}.

(** A stale token for [github.com], a good one for [api.github.com]. *)
Definition two_tokens : NetRC :=
  <[ api_github_com := login_password (js "octocat") (js "good") ]>
    (one_token (js "stale")).

End Examples.

(** * Properties *)

(** ** The embedding on concrete inputs *)

Section Checks.
Import Regex Examples.

Example trim_git_output :
  trim (js "origin/main" ++ [10]) = js "origin/main".
Proof. reflexivity. Qed.

Example split_path :
  split 47 (js "origin/feature/x") = [js "origin"; js "feature"; js "x"].
Proof. reflexivity. Qed.

Example match_ssh_remote :
  match_group1 (js "git@github.com:octocat/hello.git") = Some (js "octocat/hello").
Proof. reflexivity. Qed.

Example match_https_remote :
  match_group1 (js "https://github.com/octocat/hello") = Some (js "octocat/hello").
Proof. reflexivity. Qed.

Example match_capital_suffix :
  match_group1 (js "https://github.com/octocat/hello.GIT") = Some (js "octocat/hello").
Proof. reflexivity. Qed.

Example match_lazy_group :
  match_group1 (js "https://github.com/octocat/hello.git.git")
  = Some (js "octocat/hello.git").
Proof. reflexivity. Qed.

Example match_other_host :
  match_group1 (js "https://gitlab.com/octocat/hello.git") = None.
Proof. reflexivity. Qed.

Example match_line_terminator :
  match_group1 (js "github" ++ [10] ++ js "com/octocat/hello") = None.
Proof. reflexivity. Qed.

Example resolve_no_repo_part :
  resolveGithubProject
    (example_env (git_checkout (js "https://github.com/octocat")) [] false) None
  = Throw (mkError (js "Not in a git repository?")).
Proof. reflexivity. Qed.

Example prompt_second_attempt_accepted :
  let env := mkEnv git_nowhere []
               (fun n => (js "octocat", if n is 0%nat then js "typo" else js "good"))
               (fun _ => true) accepts_good (fun _ _ _ _ _ => Ok ()) in
  let run := promptForToken env None None None (initial_world ∅) in
  run.1 = Resolved (js "good") /\
  saves (trace run.2) = [one_token (js "good")] /\
  asked run.2 = 2%nat.
Proof. repeat split. Qed.

End Checks.

(** ** Strings *)

Section StringFacts.

Lemma split_no_sep (sep : N) (s : jsstring) :
  Forall (fun c => c ≠ sep) s -> split sep s = [s].
Proof.
  induction 1 as [|c s Hc _ IH]; [reflexivity|].
  simpl. rewrite IH. destruct (N.eqb_spec c sep); [contradiction|reflexivity].
Qed.

Lemma split_app_sep (sep : N) (a b : jsstring) :
  Forall (fun c => c ≠ sep) a ->
  split sep (a ++ sep :: b) = a :: split sep b.
Proof.
  induction 1 as [|c a Hc _ IH]; simpl.
  - now rewrite N.eqb_refl.
  - rewrite IH. destruct (N.eqb_spec c sep); [contradiction|reflexivity].
Qed.

Lemma includes_prefix (sub s : jsstring) :
  includes sub (sub ++ s) = true.
Proof.
  destruct sub as [|c sub]; [destruct s; reflexivity|].
  simpl. apply orb_true_iff. left. apply bool_decide_eq_true.
  now exists s.
Qed.

Lemma includes_app (pre sub post : jsstring) :
  includes sub (pre ++ sub ++ post) = true.
Proof.
  induction pre as [|c pre IH]; [apply (includes_prefix sub post)|].
  simpl. rewrite IH. apply orb_true_r.
Qed.

End StringFacts.

(** ** The regular expression *)

Module RegexFacts.
Import Regex Forms.

Lemma segment_nonempty s : segment s = true -> s ≠ [].
Proof. now destruct s. Qed.

Lemma segment_dot s : segment s = true -> Forall (fun c => dot c = true) s.
Proof.
  destruct s as [|c s]; [discriminate|]. unfold segment.
  generalize (c :: s). clear. intros s H.
  apply Forall_forall. intros x Hx%list_elem_of_In.
  rewrite forallb_forall in H. apply H in Hx.
  now apply andb_true_iff in Hx.
Qed.

Lemma segment_no_slash s : segment s = true -> Forall (fun c => c ≠ 47) s.
Proof.
  destruct s as [|c s]; [discriminate|]. unfold segment.
  generalize (c :: s). clear. intros s H.
  apply Forall_forall. intros x Hx%list_elem_of_In.
  rewrite forallb_forall in H. apply H in Hx.
  apply andb_true_iff in Hx as [_ Hx]. apply negb_true_iff in Hx.
  now apply N.eqb_neq.
Qed.

Lemma match_chars_app ps mk rest :
  match_chars ps mk = Some [] -> match_chars ps (mk ++ rest) = Some rest.
Proof.
  revert mk. induction ps as [|p ps IH]; intros [|c mk]; simpl; try congruence.
  destruct (p c); [apply IH|discriminate].
Qed.

(** The lazy group stops at the first place where the rest of the pattern
    matches. *)
Lemma lazy_group_stops seg : forall cap tail,
  seg ≠ [] ->
  Forall (fun c => dot c = true) seg ->
  git_suffix_then_end tail = true ->
  (forall p r, seg = p ++ r -> p ≠ [] -> r ≠ [] ->
               git_suffix_then_end (r ++ tail) = false) ->
  lazy_group cap (seg ++ tail) = Some (cap ++ seg).
Proof.
  induction seg as [|c seg IH]; intros cap tail Hne Hdot Htail Hshort; [done|].
  apply Forall_cons in Hdot as [Hc Hdot]. simpl. rewrite Hc.
  destruct seg as [|c' seg].
  - simpl. now rewrite Htail.
  - change ((c' :: seg) ++ tail) with (c' :: seg ++ tail) in *.
    pose proof (Hshort [c] (c' :: seg) eq_refl) as Hnot.
    simpl in Hnot. rewrite Hnot by done.
    change (c' :: seg ++ tail) with ((c' :: seg) ++ tail).
    rewrite IH; try done.
    + now rewrite <- app_assoc.
    + intros p r Heq Hp Hr. apply (Hshort (c :: p) r); [|done..].
      simpl. now rewrite Heq.
Qed.

Lemma match_chars_length ps : forall s,
  match_chars ps s = Some [] -> length s = length ps.
Proof.
  induction ps as [|p ps IH]; intros [|c s]; simpl; try congruence.
  destruct (p c); [|discriminate]. intros H. now rewrite (IH s H).
Qed.

Lemma is_dot_git_length g : is_dot_git g = true -> length g = 4%nat.
Proof. intros H%bool_decide_eq_true. now apply match_chars_length in H. Qed.

Lemma is_dot_git_no_slash g : is_dot_git g = true -> 47 ∉ g.
Proof.
  intros Hg Hin. pose proof (is_dot_git_length g Hg) as Hlen.
  apply bool_decide_eq_true in Hg as H.
  destruct g as [|a [|b [|c [|d [|]]]]]; try discriminate Hlen.
  simpl in H.
  destruct (full_stop a) eqn:Ha; [|discriminate].
  destruct (letter "g" b) eqn:Hb; [|discriminate].
  destruct (letter "i" c) eqn:Hc; [|discriminate].
  destruct (letter "t" d) eqn:Hd; [|discriminate].
  repeat (apply elem_of_cons in Hin as [<-|Hin]; [discriminate|]).
  inversion Hin.
Qed.

Lemma git_suffix_longer r g :
  r ≠ [] -> is_dot_git g = true -> git_suffix_then_end (r ++ g) = false.
Proof.
  intros Hr Hg. apply orb_false_iff. split; apply bool_decide_eq_false.
  - intros H%match_chars_length. apply is_dot_git_length in Hg.
    rewrite length_app in H. destruct r; [done|]. simpl in H. lia.
  - intros H. now apply app_eq_nil in H as [? _].
Qed.

(** With the [.git] suffix present, the group is what precedes it. *)
Lemma lazy_group_dot_git seg g :
  seg ≠ [] -> Forall (fun c => dot c = true) seg -> is_dot_git g = true ->
  lazy_group [] (seg ++ g) = Some seg.
Proof.
  intros Hne Hdot Hg. apply (lazy_group_stops seg [] g); try done.
  - unfold git_suffix_then_end. unfold is_dot_git in Hg. now rewrite Hg.
  - intros p r _ _ Hr. now apply git_suffix_longer.
Qed.

(** Without it, the group is the whole rest, unless a proper end of the
    rest is itself a match of [\.git]. *)
Lemma lazy_group_plain seg :
  seg ≠ [] -> Forall (fun c => dot c = true) seg ->
  (forall p g, is_dot_git g = true -> seg ≠ p ++ g) ->
  lazy_group [] seg = Some seg.
Proof.
  intros Hne Hdot Hgit.
  rewrite <- (app_nil_r seg) at 1.
  apply (lazy_group_stops seg [] []); try done.
  intros p r -> Hp Hr. rewrite app_nil_r.
  apply orb_false_iff. split; apply bool_decide_eq_false; [|done].
  intros H. apply (Hgit p r); [now apply bool_decide_eq_true|reflexivity].
Qed.

(** The scan skips a prefix in which the marker matches nowhere. *)
Lemma match_group1_skip pre : forall s,
  (forall i, (i < length pre)%nat -> match_chars marker (drop i (pre ++ s)) = None) ->
  match_group1 (pre ++ s) = match_group1 s.
Proof.
  induction pre as [|c pre IH]; intros s H; [reflexivity|].
  change (match_group1 ((c :: pre) ++ s))
    with (match match_here (c :: pre ++ s) with
          | Some cap => Some cap
          | None => match_group1 (pre ++ s)
          end).
  pose proof (H 0%nat ltac:(simpl; lia)) as H0.
  change (drop 0 ((c :: pre) ++ s)) with (c :: pre ++ s) in H0.
  unfold match_here. rewrite H0.
  apply IH. intros i Hi. apply (H (S i)). simpl. lia.
Qed.

Lemma match_group1_here s cap :
  match_here s = Some cap -> match_group1 s = Some cap.
Proof. intros H. destruct s; cbn [match_group1]; now rewrite H. Qed.

End RegexFacts.

(** ** [resolveGithubProject] *)

Section ResolverFacts.
Import Regex Forms RegexFacts.

Variable env : Env.

Lemma result_bind_Ok {A B} (a : A) (f : A -> Result B) : (Ok a ≫= f) = f a.
Proof. reflexivity. Qed.

Lemma result_bind_Throw {A B} (e : Error) (f : A -> Result B) :
  (Throw e ≫= f) = Throw e.
Proof. reflexivity. Qed.

(** The [try] block once git has answered. *)
Lemma resolve_body_url dir url :
  upstream_fetch_url env dir url ->
  resolve_body env dir =
    match match_group1 url with
    | None => Throw NOT_GITHUB_REMOTE
    | Some repoId =>
        match split 47 repoId !! 0%nat, split 47 repoId !! 1%nat with
        | Some owner, Some repo =>
            if negb (truthy (Some owner)) || negb (truthy (Some repo))
            then Throw NOT_GITHUB_REMOTE
            else Ok (mkDescription owner repo repoId)
        | _, _ => Throw NOT_GITHUB_REMOTE
        end
    end.
Proof.
  intros (branch & upstream & out & H1 & H2 & H3 & <-).
  unfold resolve_body.
  rewrite H1, !result_bind_Ok, H2, !result_bind_Ok, H3, !result_bind_Ok.
  reflexivity.
Qed.

Lemma resolve_segments dir url OWNER REPO :
  upstream_fetch_url env (default (process_cwd env) dir) url ->
  match_group1 url = Some (OWNER ++ js "/" ++ REPO) ->
  segment OWNER = true -> segment REPO = true ->
  resolveGithubProject env dir
  = Ok (mkDescription OWNER REPO (OWNER ++ js "/" ++ REPO)).
Proof.
  intros Hgit Hm HO HR. unfold resolveGithubProject.
  rewrite (resolve_body_url _ _ Hgit), Hm.
  change (js "/" ++ REPO) with (47 :: REPO).
  rewrite split_app_sep, split_no_sep by now apply segment_no_slash.
  simpl. destruct OWNER; [discriminate|]. destruct REPO; [discriminate|].
  reflexivity.
Qed.

Lemma resolve_fails dir :
  ResolutionFailure env (default (process_cwd env) dir) ->
  resolveGithubProject env dir = Throw not_in_a_git_repository.
Proof.
  unfold resolveGithubProject. generalize (default (process_cwd env) dir).
  clear dir. intros dir.
  intros [e H1|b e H1 H2|b u e H1 H2 H3|url Hgit Hm|url id Hgit Hm Hparts].
  - unfold resolve_body. now rewrite H1.
  - unfold resolve_body. now rewrite H1, !result_bind_Ok, H2.
  - unfold resolve_body.
    now rewrite H1, !result_bind_Ok, H2, !result_bind_Ok, H3.
  - now rewrite (resolve_body_url _ _ Hgit), Hm.
  - rewrite (resolve_body_url _ _ Hgit), Hm.
    destruct (split 47 id !! 0%nat) as [[|? ?]|], (split 47 id !! 1%nat) as [[|? ?]|];
      try reflexivity; discriminate.
Qed.

(** Every failure has one of these causes. *)
Lemma resolve_throw_cause dir e :
  resolveGithubProject env dir = Throw e ->
  ResolutionFailure env (default (process_cwd env) dir).
Proof.
  unfold resolveGithubProject. generalize (default (process_cwd env) dir).
  clear dir. intros dir H.
  destruct (execSync env (js "git rev-parse --abbrev-ref HEAD") dir)
    as [branch|e1] eqn:H1; [|exact (NotARepository _ _ _ H1)].
  destruct (execSync env (js "git rev-parse --abbrev-ref " ++ trim branch
                          ++ js "@{upstream}") dir)
    as [upstream|e2] eqn:H2; [|exact (NoUpstream _ _ _ _ H1 H2)].
  destruct (execSync env (js "git remote get-url "
                          ++ interpolate (head (split 47 (trim upstream)))) dir)
    as [out|e3] eqn:H3; [|exact (NoRemote _ _ _ _ _ H1 H2 H3)].
  assert (upstream_fetch_url env dir (trim out)) as Hgit
    by (now exists branch, upstream, out).
  rewrite (resolve_body_url _ _ Hgit) in H.
  destruct (match_group1 (trim out)) as [id|] eqn:Hm; [|exact (NotGithub _ _ _ Hgit Hm)].
  eapply NoOwnerOrRepo; [exact Hgit|exact Hm|].
  destruct (split 47 id !! 0%nat) as [[|? ?]|], (split 47 id !! 1%nat) as [[|? ?]|];
    try reflexivity; discriminate.
Qed.

Lemma resolve_throw_message dir e :
  resolveGithubProject env dir = Throw e -> e = not_in_a_git_repository.
Proof.
  unfold resolveGithubProject.
  destruct (resolve_body env (default (process_cwd env) dir)); simpl; congruence.
Qed.

End ResolverFacts.

Section RemoteForms.
Import Regex Forms RegexFacts.

(** [OWNER/REPO] does not end in [.git] unless [REPO] does. *)
Lemma owner_repo_not_dot_git OWNER REPO p g :
  ends_in_dot_git REPO = false -> is_dot_git g = true ->
  OWNER ++ js "/" ++ REPO ≠ p ++ g.
Proof.
  intros Hend Hg Heq. rewrite app_assoc in Heq.
  pose proof (is_dot_git_length g Hg) as Hlen.
  unfold ends_in_dot_git in Hend.
  apply app_eq_app in Heq as [l [[Hl Hgit]|[Hp HR]]].
  - destruct (decide (l = [])) as [->|Hne].
    + simpl in Hgit. subst g. rewrite Hlen, Nat.sub_diag in Hend.
      rewrite drop_0 in Hend. congruence.
    + assert (47 ∈ l) as Hin.
      { destruct (exists_last Hne) as (l' & c & ->).
        rewrite !app_assoc in Hl. apply app_inj_tail in Hl as [_ <-].
        apply list_elem_of_In, in_elt. }
      apply (is_dot_git_no_slash g Hg). rewrite Hgit.
      apply elem_of_app. now left.
  - subst REPO. rewrite length_app, Hlen, Nat.add_sub, drop_app_length in Hend.
    congruence.
Qed.

(** The marker, then [OWNER/REPO], then possibly [.git]: group 1 is
    [OWNER/REPO]. *)
Lemma match_here_owner_repo mk OWNER REPO git :
  is_marker mk = true ->
  segment OWNER = true -> segment REPO = true ->
  is_dot_git git = true \/ git = [] ->
  (git = [] -> ends_in_dot_git REPO = false) ->
  match_here (mk ++ (OWNER ++ js "/" ++ REPO) ++ git)
  = Some (OWNER ++ js "/" ++ REPO).
Proof.
  intros Hmk%bool_decide_eq_true HO HR Hgit Hplain.
  unfold match_here. rewrite (match_chars_app _ _ _ Hmk).
  assert (OWNER ++ js "/" ++ REPO ≠ []) as Hne
    by (intros [? _]%app_eq_nil; now apply (segment_nonempty OWNER)).
  assert (Forall (fun c => dot c = true) (OWNER ++ js "/" ++ REPO)) as Hdot.
  { apply Forall_app. split; [now apply segment_dot|].
    apply Forall_cons. split; [reflexivity|now apply segment_dot]. }
  destruct Hgit as [Hgit| ->].
  - now apply lazy_group_dot_git.
  - rewrite app_nil_r. apply lazy_group_plain; try done.
    intros p g Hg. apply owner_repo_not_dot_git; [now apply Hplain|exact Hg].
Qed.

(** The same anywhere in the URL, when the marker matches nowhere before. *)
Lemma match_group1_owner_repo pre mk OWNER REPO git :
  is_marker mk = true ->
  segment OWNER = true -> segment REPO = true ->
  is_dot_git git = true \/ git = [] ->
  (git = [] -> ends_in_dot_git REPO = false) ->
  (forall i, (i < length pre)%nat ->
     match_chars marker (drop i (pre ++ mk ++ (OWNER ++ js "/" ++ REPO) ++ git)) = None) ->
  match_group1 (pre ++ mk ++ (OWNER ++ js "/" ++ REPO) ++ git)
  = Some (OWNER ++ js "/" ++ REPO).
Proof.
  intros Hmk HO HR Hgit Hplain Hfirst.
  rewrite match_group1_skip by exact Hfirst.
  apply match_group1_here. now apply match_here_owner_repo.
Qed.

(** No marker starts inside [git@], [https://] when [github.com] follows. *)
Lemma ssh_scheme_first rest i :
  (i < length (js "git@"))%nat ->
  match_chars marker (drop i (js "git@" ++ js "github.com:" ++ rest)) = None.
Proof.
  intros Hi. do 4 (destruct i as [|i]; [reflexivity|]).
  simpl in Hi. lia.
Qed.

Lemma https_scheme_first mk rest i :
  (i < length (js "https://"))%nat ->
  match_chars marker (drop i (js "https://" ++ mk ++ rest)) = None.
Proof.
  intros Hi. do 8 (destruct i as [|i]; [reflexivity|]).
  simpl in Hi. lia.
Qed.

End RemoteForms.

Section Markers.
Import Regex Forms RegexFacts.

Lemma letter_intro (p : string) (l c : N) :
  js p = [l] -> c = l \/ c = l - 32 -> letter p c = true.
Proof.
  intros Hp [-> | ->]; unfold letter; rewrite Hp;
    rewrite N.eqb_refl; [reflexivity|apply orb_true_r].
Qed.

Lemma colon_or_slash_intro sep :
  [sep] = js ":" \/ [sep] = js "/" -> colon_or_slash sep = true.
Proof. now intros [[= ->]|[= ->]]. Qed.

(** [github], any character, [com], then [:] or [/], in any mix of cases,
    is a match of the marker. *)
Lemma is_marker_intro G w C sep :
  caseless (js "github") G -> dot w = true -> caseless (js "com") C ->
  [sep] = js ":" \/ [sep] = js "/" ->
  is_marker (G ++ [w] ++ C ++ [sep]) = true.
Proof.
  intros HG Hw HC Hsep. apply bool_decide_eq_true.
  repeat match goal with
         | H : caseless _ _ |- _ => unfold caseless in H; vm_compute js in H
         | H : Forall2 _ (_ :: _) _ |- _ =>
             apply Forall2_cons_inv_l in H as (? & ? & ? & H & ->)
         | H : Forall2 _ [] _ |- _ => apply Forall2_nil_inv_l in H as ->
         end.
  simpl.
  repeat match goal with
         | H : ?c = _ \/ ?c = _ |- context [letter ?p ?c] =>
             rewrite (letter_intro p _ c eq_refl H)
         end.
  now rewrite Hw, (colon_or_slash_intro _ Hsep).
Qed.

End Markers.

(** ** The credential flow *)

Section CredentialFacts.

Variable env : Env.

Ltac run_async :=
  cbv [mbind Async_bind async_bind mret Async_ret async_ret
       try_catch_async new_Octokit api_users_getAuthenticated request
       write process_exit prompt_credentials prompt_save
       netrc_save netrc throw emit from_option]; simpl.

Lemma checkCredentials_run token w :
  checkCredentials env token w
  = (Resolved (match users_getAuthenticated env (requests w) (token_auth token) with
               | Ok _ => true
               | Throw _ => false
               end),
     after_check env token w).
Proof.
  unfold checkCredentials, after_check. run_async.
  destruct (users_getAuthenticated env (requests w) (token_auth token)); simpl.
  - reflexivity.
  - now rewrite <- app_assoc.
Qed.

Lemma promptForToken_body rc attempts maxAttempts :
  promptForToken env rc attempts maxAttempts =
  if (default 3 maxAttempts <=? default 0 attempts)%nat then
    rc ← from_option mret netrc rc;
    _ ← write cross (js "Too many attempts");
    process_exit 1
  else
    rc ← from_option mret netrc rc;
    '(name, token) ← prompt_credentials env;
    valid ← checkCredentials env token;
    if (valid : bool) then
      save ← prompt_save env;
      _ ← (if (save : bool)
           then netrc_save (<[github_com := login_password name token]> rc)
           else mret ());
      mret token
    else
      promptForToken env (Some rc) (Some (default 0 attempts + 1)%nat) None.
Proof.
  rewrite promptForToken_equation_1.
  destruct (le_lt_dec (default 3 maxAttempts) (default 0 attempts))%nat as [H|H];
    simpl.
  - apply Nat.leb_le in H. now rewrite H.
  - apply Nat.leb_gt in H. now rewrite H.
Qed.

(** The bound is reached: the fatal message, then the end of the process. *)
Lemma promptForToken_exit rc attempts maxAttempts w :
  (default 3 maxAttempts <= default 0 attempts)%nat ->
  promptForToken env rc attempts maxAttempts w
  = (Exited 1,
     mkWorld (github w) (netrc_file w) (next_object w)
             (asked w) (confirmed w) (requests w)
             (trace w ++ [EWrite cross (js "Too many attempts"); EExit 1])).
Proof.
  intros H%Nat.leb_le. rewrite promptForToken_body, H.
  destruct rc; run_async; now rewrite <- app_assoc.
Qed.

(** A refused token: the same call again, one attempt later, with the
    default bound. *)
Lemma promptForToken_retry rc attempts maxAttempts w :
  (default 0 attempts < default 3 maxAttempts)%nat ->
  validates env (requests w) (asked w) = false ->
  promptForToken env rc attempts maxAttempts w
  = promptForToken env (Some (default (netrc_file w) rc))
      (Some (default 0 attempts + 1)%nat) None (after_failed_attempt env w).
Proof.
  intros H%Nat.leb_gt Hbad. rewrite promptForToken_body, H.
  unfold validates in Hbad. unfold after_failed_attempt, after_prompt.
  destruct rc as [rc|]; unfold mbind, Async_bind, async_bind; simpl.
  all: unfold netrc, mret, Async_ret, async_ret, prompt_credentials.
  all: destruct (answer_credentials env (asked w)) as [name token] eqn:Hans.
  all: rewrite checkCredentials_run; simpl in *.
  all: destruct (users_getAuthenticated env (requests w) (token_auth token));
       [discriminate|reflexivity].
Qed.

(** An accepted token: the save prompt, the save if confirmed, the token. *)
Lemma promptForToken_accept rc attempts maxAttempts w :
  (default 0 attempts < default 3 maxAttempts)%nat ->
  validates env (requests w) (asked w) = true ->
  promptForToken env rc attempts maxAttempts w
  = (Resolved (answer_credentials env (asked w)).2,
     after_accepted_attempt env (default (netrc_file w) rc) w).
Proof.
  intros H%Nat.leb_gt Hok. rewrite promptForToken_body, H.
  unfold validates in Hok. unfold after_accepted_attempt.
  destruct rc as [rc|]; unfold mbind, Async_bind, async_bind; simpl.
  all: unfold netrc, mret, Async_ret, async_ret, prompt_credentials.
  all: destruct (answer_credentials env (asked w)) as [name token] eqn:Hans.
  all: rewrite checkCredentials_run; unfold after_check; simpl in *.
  all: destruct (users_getAuthenticated env (requests w) (token_auth token))
         as [[]|]; [|discriminate].
  all: run_async.
  all: destruct (answer_save env (confirmed w)); simpl.
  all: now rewrite <- !app_assoc.
Qed.

(** What [n] refused attempts in a row leave behind. *)
Lemma failed_attempts_frame n w :
  let w' := Nat.iter n (after_failed_attempt env) w in
  github w' = github w /\ netrc_file w' = netrc_file w /\
  confirmed w' = confirmed w /\
  asked w' = (asked w + n)%nat /\ requests w' = (requests w + n)%nat /\
  (next_object w <= next_object w')%nat /\
  exists events, trace w' = trace w ++ events /\ saves events = [] /\
                 dispatches events = [].
Proof.
  induction n as [|n IH]; simpl.
  - repeat split; try lia. exists []. now rewrite app_nil_r.
  - destruct IH as (Hg & Hf & Hc & Ha & Hr & Ho & events & Ht & Hs & Hd).
    repeat split; try (simpl; congruence || lia).
    rewrite Ht, <- !app_assoc. eexists. split; [reflexivity|].
    unfold saves, dispatches in *. rewrite !omap_app, Hs, Hd. simpl.
    now destruct (users_getAuthenticated _ _ _).
Qed.

(** Refused attempts up to the default bound, then the exit: what a call
    that starts at attempt 0 with any bound of at least 1 does. *)
Lemma promptForToken_refused rc attempts maxAttempts w :
  default 0%nat attempts = 0%nat ->
  (1 <= default 3 maxAttempts)%nat ->
  (forall i, (i < 3)%nat -> validates env (requests w + i) (asked w + i) = false) ->
  promptForToken env rc attempts maxAttempts w
  = (Exited 1, after_exit (Nat.iter 3 (after_failed_attempt env) w)).
Proof.
  intros Ha Hm Hbad.
  assert (validates env (requests w) (asked w) = false) as H0
    by (rewrite <- (Nat.add_0_r (requests w)), <- (Nat.add_0_r (asked w));
        apply Hbad; lia).
  rewrite (promptForToken_retry rc attempts maxAttempts w); [|lia|exact H0].
  set (w1 := after_failed_attempt env w).
  assert (validates env (requests w1) (asked w1) = false) as H1.
  { change (requests w1) with (S (requests w)).
    change (asked w1) with (S (asked w)).
    replace (S (requests w)) with (requests w + 1)%nat by lia.
    replace (S (asked w)) with (asked w + 1)%nat by lia.
    apply Hbad. lia. }
  rewrite (promptForToken_retry _ _ None w1); [|rewrite Ha; simpl; lia|exact H1].
  set (w2 := after_failed_attempt env w1).
  assert (validates env (requests w2) (asked w2) = false) as H2.
  { change (requests w2) with (S (S (requests w))).
    change (asked w2) with (S (S (asked w))).
    replace (S (S (requests w))) with (requests w + 2)%nat by lia.
    replace (S (S (asked w))) with (asked w + 2)%nat by lia.
    apply Hbad. lia. }
  rewrite (promptForToken_retry _ _ None w2); [|rewrite Ha; simpl; lia|exact H2].
  rewrite promptForToken_exit by (rewrite Ha; simpl; lia).
  reflexivity.
Qed.

(** Every run of [promptForToken]: some refused attempts, then either the
    exit or an accepted attempt. *)
Lemma promptForToken_run rc attempts maxAttempts w :
  exists k,
    let w0 := Nat.iter k (after_failed_attempt env) w in
    promptForToken env rc attempts maxAttempts w = (Exited 1, after_exit w0)
    \/ (validates env (requests w0) (asked w0) = true /\
        promptForToken env rc attempts maxAttempts w
        = (Resolved (answer_credentials env (asked w0)).2,
           after_accepted_attempt env (default (netrc_file w) rc) w0)).
Proof.
  remember (calls_left attempts maxAttempts) as n eqn:Hn.
  assert (calls_left attempts maxAttempts <= n)%nat as Hle by lia. clear Hn.
  revert rc attempts maxAttempts w Hle.
  induction n as [|n IH]; intros rc attempts maxAttempts w Hle;
    unfold calls_left in Hle;
    destruct (Nat.ltb_spec (default 0 attempts) (default 3 maxAttempts))%nat
      as [Hlt|Hge]; try lia.
  1,3: exists 0%nat; left; now apply promptForToken_exit.
  destruct (validates env (requests w) (asked w)) eqn:Hv.
  - exists 0%nat. right. split; [exact Hv|]. now apply promptForToken_accept.
  - destruct (IH (Some (default (netrc_file w) rc))
                 (Some (default 0 attempts + 1)%nat) None
                 (after_failed_attempt env w)) as [k Hk].
    { unfold calls_left. simpl.
      destruct (Nat.ltb_spec (default 0 attempts + 1) 3)%nat; lia. }
    exists (S k). rewrite Nat.iter_succ_r.
    rewrite (promptForToken_retry rc attempts maxAttempts w Hlt Hv).
    exact Hk.
Qed.

Lemma extends_refl w : extends w w.
Proof. repeat split; [lia|]. exists []. now rewrite app_nil_r. Qed.

Lemma extends_trans w1 w2 w3 : extends w1 w2 -> extends w2 w3 -> extends w1 w3.
Proof.
  intros (Hg1 & Ho1 & ev1 & Ht1 & Hd1) (Hg2 & Ho2 & ev2 & Ht2 & Hd2).
  repeat split; [congruence|lia|]. exists (ev1 ++ ev2).
  rewrite Ht2, Ht1, <- app_assoc. split; [reflexivity|].
  unfold dispatches in *. now rewrite omap_app, Hd1, Hd2.
Qed.

Lemma extends_failed_attempts k w : extends w (Nat.iter k (after_failed_attempt env) w).
Proof.
  destruct (failed_attempts_frame k w) as (Hg & _ & _ & _ & _ & Ho & ev & Ht & _ & Hd).
  repeat split; [exact Hg|exact Ho|]. now exists ev.
Qed.

Lemma extends_after_check token w : extends w (after_check env token w).
Proof.
  repeat split; [simpl; lia|]. eexists. split; [reflexivity|].
  simpl. now destruct (users_getAuthenticated _ _ _).
Qed.

Lemma extends_after_exit w : extends w (after_exit w).
Proof. repeat split; [simpl; lia|]. eexists. split; reflexivity. Qed.

Lemma extends_after_accepted rc w : extends w (after_accepted_attempt env rc w).
Proof.
  repeat split; [simpl; lia|]. eexists. split; [reflexivity|].
  simpl. now destruct (answer_save _ _).
Qed.

Lemma promptForToken_extends rc attempts maxAttempts w :
  extends w (promptForToken env rc attempts maxAttempts w).2.
Proof.
  destruct (promptForToken_run rc attempts maxAttempts w) as [k [H|[_ H]]];
    rewrite H; simpl;
    (eapply extends_trans; [apply extends_failed_attempts|]).
  - apply extends_after_exit.
  - apply extends_after_accepted.
Qed.

(** *** [getToken] and [getGithubAPI] *)

Lemma getToken_stored w token :
  stored_token (netrc_file w) = Some token -> token ≠ [] ->
  getToken env w = (Resolved token, w).
Proof.
  intros Hs Hne. unfold getToken. run_async. rewrite Hs.
  now destruct token.
Qed.

Lemma getToken_prompt w :
  truthy (stored_token (netrc_file w)) = false ->
  getToken env w = promptForToken env (Some (netrc_file w)) None None w.
Proof.
  intros Hs. unfold getToken. run_async.
  now destruct (stored_token (netrc_file w)) as [[|c t]|].
Qed.

Lemma getToken_extends w : extends w (getToken env w).2.
Proof.
  destruct (truthy (stored_token (netrc_file w))) eqn:Hs.
  - destruct (stored_token (netrc_file w)) as [[|c t]|] eqn:Ht; try discriminate.
    rewrite (getToken_stored w (c :: t)) by done. apply extends_refl.
  - rewrite getToken_prompt by done. apply promptForToken_extends.
Qed.

Lemma extends_after_new w : extends w (after_new w).
Proof. repeat split; [simpl; lia|]. exists []. now rewrite app_nil_r. Qed.

(** [getGithubAPI] when the module variable holds nothing. *)
Lemma getGithubAPI_uncached w :
  github w = None ->
  getGithubAPI env w =
    match getToken env w with
    | (Resolved token, w1) =>
        let w2 := after_check env token w1 in
        match users_getAuthenticated env (requests w1) (token_auth token) with
        | Ok _ => (Resolved (mkOctokit (next_object w2) (token_auth token)),
                   after_new w2)
        | Throw _ =>
            match promptForToken env None None None w2 with
            | (Resolved token', w3) =>
                (Resolved (mkOctokit (next_object w3) (token_auth token')),
                 after_new w3)
            | (Rejected e, w3) => (Rejected e, w3)
            | (Exited code, w3) => (Exited code, w3)
            end
        end
    | (Rejected e, w1) => (Rejected e, w1)
    | (Exited code, w1) => (Exited code, w1)
    end.
Proof.
  intros Hg. unfold getGithubAPI. rewrite Hg.
  unfold mbind, Async_bind, async_bind.
  destruct (getToken env w) as [[token|e|code] w1]; try reflexivity.
  rewrite checkCredentials_run.
  destruct (users_getAuthenticated env (requests w1) (token_auth token));
    simpl; [reflexivity|].
  now destruct (promptForToken env None None None (after_check env token w1))
    as [[token'|e'|code'] w3].
Qed.

Lemma getGithubAPI_cached w cached :
  github w = Some cached -> getGithubAPI env w = (Resolved cached, w).
Proof. intros Hg. unfold getGithubAPI. now rewrite Hg. Qed.

Lemma getGithubAPI_extends w : extends w (getGithubAPI env w).2.
Proof.
  destruct (github w) as [cached|] eqn:Hg.
  { rewrite (getGithubAPI_cached w cached Hg). apply extends_refl. }
  rewrite (getGithubAPI_uncached w Hg).
  pose proof (getToken_extends w) as H1.
  destruct (getToken env w) as [[token|e|code] w1]; simpl in H1; try exact H1.
  pose proof (extends_after_check token w1) as H2.
  destruct (users_getAuthenticated env (requests w1) (token_auth token)) eqn:Hr.
  - simpl. apply (extends_trans _ _ _ H1), (extends_trans _ _ _ H2).
    apply extends_after_new.
  - pose proof (promptForToken_extends None None None (after_check env token w1)) as H3.
    cbv zeta.
    destruct (promptForToken env None None None (after_check env token w1))
      as [[token'|e'|code'] w3]; simpl in *;
      apply (extends_trans _ _ _ H1), (extends_trans _ _ _ H2); try exact H3.
    apply (extends_trans _ _ _ H3), extends_after_new.
Qed.

(** The module variable is never assigned. *)
Lemma github_never_assigned w : github (getGithubAPI env w).2 = github w.
Proof. now destruct (getGithubAPI_extends w) as [H _]. Qed.

(** A client created by [getGithubAPI] is a new object. *)
Lemma getGithubAPI_new_object w api w' :
  github w = None ->
  getGithubAPI env w = (Resolved api, w') ->
  (next_object w <= object_id api < next_object w')%nat.
Proof.
  intros Hg. rewrite (getGithubAPI_uncached w Hg).
  pose proof (getToken_extends w) as (_ & H1 & _).
  destruct (getToken env w) as [[token|e|code] w1]; simpl in H1; try discriminate.
  cbv zeta.
  destruct (users_getAuthenticated env (requests w1) (token_auth token)) eqn:Hr.
  - intros [= <- <-]. simpl. lia.
  - pose proof (promptForToken_extends None None None (after_check env token w1))
      as (_ & H3 & _).
    destruct (promptForToken env None None None (after_check env token w1))
      as [[token'|e'|code'] w3]; simpl in *; try discriminate.
    intros [= <- <-]. simpl. lia.
Qed.

End CredentialFacts.

(** ** [dispatchEvent] *)

Section DispatchFacts.

Variable env : Env.

(** A textual target is resolved first; a failed resolution rejects before
    anything else happens. *)
Lemma dispatchEvent_path dir eventType w :
  dispatchEvent env (inl dir) eventType w =
    match resolveGithubProject env (Some dir) with
    | Ok d => dispatchEvent env (inr (mkRef (owner d) (repo d) (Some (repoId d))))
                eventType w
    | Throw e => (Rejected e, w)
    end.
Proof.
  unfold dispatchEvent.
  now destruct (resolveGithubProject env (Some dir)) as [[o r id]|e].
Qed.

(** A missing [repoId] defaults to [owner/repo]. *)
Lemma dispatchEvent_default_repoId o r eventType w :
  dispatchEvent env (inr (mkRef o r None)) eventType w
  = dispatchEvent env (inr (mkRef o r (Some (o ++ js "/" ++ r)))) eventType w.
Proof. reflexivity. Qed.

(** With a client at hand: one request, then the message or the rejection. *)
Lemma dispatchEvent_ref o r id eventType w api w1 :
  getGithubAPI env w = (Resolved api, w1) ->
  let response := repos_createDispatchEvent env (requests w1) (auth api) o r eventType in
  dispatchEvent env (inr (mkRef o r id)) eventType w
  = (match response with
     | Ok _ => Resolved (mkDispatched
                 (dispatched_message (default (o ++ js "/" ++ r) id) eventType))
     | Throw e => Rejected e
     end,
     mkWorld (github w1) (netrc_file w1) (next_object w1)
             (asked w1) (confirmed w1) (S (requests w1))
             (trace w1 ++ [ECreateDispatchEvent (auth api) o r eventType response])).
Proof.
  intros Hapi response. unfold dispatchEvent.
  unfold mbind at 1, Async_bind, async_bind at 1. simpl.
  unfold mbind at 1, async_bind at 1. rewrite Hapi.
  unfold mbind, async_bind, api_repos_createDispatchEvent, request. fold response.
  now destruct response, id.
Qed.

End DispatchFacts.

(** * The claims *)

Section Claims.
Import Regex Forms RegexFacts Examples.

(** C2. For a directory whose upstream remote has the fetch URL
    [git@github.com:OWNER/REPO] or [https://github.com/OWNER/REPO], with or
    without a trailing [.git], [resolveGithubProject] returns
    [{owner: OWNER, repo: REPO, repoId: "OWNER/REPO"}]: the [.git] (in any
    mix of cases) is not part of [repoId].  [OWNER] and [REPO] are path
    segments; when the URL carries no [.git] of its own, [REPO] is a name
    that does not end in [.git]. *)
Theorem resolveGithubProject_github_remote
    (env : Env) (dir : option jsstring) (OWNER REPO scheme git : jsstring) :
  segment OWNER = true -> segment REPO = true ->
  scheme ∈ [js "git@github.com:"; js "https://github.com/"] ->
  is_dot_git git = true \/ git = [] ->
  (git = [] -> ends_in_dot_git REPO = false) ->
  upstream_fetch_url env (default (process_cwd env) dir)
    (scheme ++ OWNER ++ js "/" ++ REPO ++ git) ->
  resolveGithubProject env dir
  = Ok (mkDescription OWNER REPO (OWNER ++ js "/" ++ REPO)).
Proof.
  intros HO HR Hscheme Hgit Hplain Hurl.
  apply (resolve_segments env dir _ OWNER REPO Hurl); [|exact HO|exact HR].
  apply elem_of_cons in Hscheme as [->| ->%list_elem_of_singleton].
  - change (js "git@github.com:") with (js "git@" ++ js "github.com:").
    replace ((js "git@" ++ js "github.com:") ++ OWNER ++ js "/" ++ REPO ++ git)
      with (js "git@" ++ js "github.com:" ++ (OWNER ++ js "/" ++ REPO) ++ git)
      by now rewrite <- !app_assoc.
    apply match_group1_owner_repo; try done.
    intros i Hi. now apply ssh_scheme_first.
  - change (js "https://github.com/") with (js "https://" ++ js "github.com/").
    replace ((js "https://" ++ js "github.com/") ++ OWNER ++ js "/" ++ REPO ++ git)
      with (js "https://" ++ js "github.com/" ++ (OWNER ++ js "/" ++ REPO) ++ git)
      by now rewrite <- !app_assoc.
    apply match_group1_owner_repo; try done.
    intros i Hi. now apply https_scheme_first.
Qed.

Lemma resolveGithubProject_github_remote_witness :
  resolveGithubProject
    (example_env (git_checkout (js "git@github.com:octocat/hello.git")) [] false)
    None
  = Ok (mkDescription (js "octocat") (js "hello") (js "octocat/hello")).
Proof.
  apply (resolveGithubProject_github_remote _ None (js "octocat") (js "hello")
           (js "git@github.com:") (js ".git")).
  - reflexivity.
  - reflexivity.
  - left.
  - left. reflexivity.
  - discriminate.
  - exists (js "main" ++ [10]), (js "origin/main" ++ [10]),
      (js "git@github.com:octocat/hello.git" ++ [10]).
    repeat split; reflexivity.
Defined.

(** C4. Whatever makes [resolveGithubProject] fail (the directory is not
    a git repository, the branch has no upstream, the remote has no URL,
    the URL has no GitHub marker, or owner or repository cannot be read
    from it), the function throws the same error, with the message
    ["Not in a git repository?"]; every failure has one of these causes. *)
Theorem resolveGithubProject_single_failure (env : Env) (dir : option jsstring) :
  (ResolutionFailure env (default (process_cwd env) dir) <->
   exists e, resolveGithubProject env dir = Throw e) /\
  (forall e, resolveGithubProject env dir = Throw e ->
             e = mkError (js "Not in a git repository?")).
Proof.
  split; [split|].
  - intros H. eexists. now apply resolve_fails.
  - intros [e H]. now apply resolve_throw_cause in H.
  - apply resolve_throw_message.
Qed.

Lemma resolveGithubProject_single_failure_witness :
  resolveGithubProject (example_env git_nowhere [] false) (Some (js "/tmp"))
  = Throw (mkError (js "Not in a git repository?")) /\
  resolveGithubProject
    (example_env (git_checkout (js "https://gitlab.com/octocat/hello.git")) [] false)
    None
  = Throw (mkError (js "Not in a git repository?")).
Proof.
  split.
  - destruct (resolveGithubProject_single_failure
                (example_env git_nowhere [] false) (Some (js "/tmp")))
      as [[Hcause _] Hmessage].
    destruct Hcause as [e He].
    + now apply (NotARepository _ _ command_failed).
    + rewrite He. f_equal. now apply Hmessage.
  - destruct (resolveGithubProject_single_failure
                (example_env (git_checkout (js "https://gitlab.com/octocat/hello.git"))
                             [] false) None)
      as [[Hcause _] Hmessage].
    destruct Hcause as [e He].
    + apply (NotGithub _ _ (js "https://gitlab.com/octocat/hello.git")).
      * exists (js "main" ++ [10]), (js "origin/main" ++ [10]),
          (js "https://gitlab.com/octocat/hello.git" ++ [10]).
        repeat split; reflexivity.
      * reflexivity.
    + rewrite He. f_equal. now apply Hmessage.
Defined.

(** C10. The marker of the remote URL is matched without regard to case,
    its dots stand for any character (line terminators apart, as for every
    dot of a regular expression), and it may start anywhere: a URL made of
    any prefix, [github] in any mix of cases, any such character, [com] in
    any mix of cases, [:] or [/], then [OWNER/REPO] with or without [.git],
    resolves to [OWNER] and [REPO], the marker being the first in the URL.
    So does [https://GitHub.com/OWNER/REPO]. *)
Theorem resolveGithubProject_loose_marker
    (env : Env) (dir : option jsstring)
    (pre G C OWNER REPO git : jsstring) (any sep : N) :
  caseless (js "github") G -> dot any = true -> caseless (js "com") C ->
  [sep] = js ":" \/ [sep] = js "/" ->
  segment OWNER = true -> segment REPO = true ->
  is_dot_git git = true \/ git = [] ->
  (git = [] -> ends_in_dot_git REPO = false) ->
  let url := pre ++ (G ++ [any] ++ C ++ [sep]) ++ (OWNER ++ js "/" ++ REPO) ++ git in
  (forall i, (i < length pre)%nat -> match_chars marker (drop i url) = None) ->
  (upstream_fetch_url env (default (process_cwd env) dir) url ->
   resolveGithubProject env dir
   = Ok (mkDescription OWNER REPO (OWNER ++ js "/" ++ REPO))) /\
  (upstream_fetch_url env (default (process_cwd env) dir)
     (js "https://GitHub.com/" ++ OWNER ++ js "/" ++ REPO ++ git) ->
   resolveGithubProject env dir
   = Ok (mkDescription OWNER REPO (OWNER ++ js "/" ++ REPO))).
Proof.
  intros HG Hany HC Hsep HO HR Hgit Hplain url Hfirst. split; intros Hurl.
  - apply (resolve_segments env dir _ OWNER REPO Hurl); [|exact HO|exact HR].
    apply match_group1_owner_repo; try done.
    now apply is_marker_intro.
  - apply (resolve_segments env dir _ OWNER REPO Hurl); [|exact HO|exact HR].
    change (js "https://GitHub.com/") with (js "https://" ++ js "GitHub.com/").
    replace ((js "https://" ++ js "GitHub.com/") ++ OWNER ++ js "/" ++ REPO ++ git)
      with (js "https://" ++ js "GitHub.com/" ++ (OWNER ++ js "/" ++ REPO) ++ git)
      by now rewrite <- !app_assoc.
    apply match_group1_owner_repo; try done.
    intros i Hi. now apply https_scheme_first.
Qed.

Lemma resolveGithubProject_loose_marker_witness :
  resolveGithubProject
    (example_env (git_checkout (js "ssh://git@GitHub-COM:octocat/hello.git")) [] false)
    None
  = Ok (mkDescription (js "octocat") (js "hello") (js "octocat/hello")).
Proof.
  refine (proj1 (resolveGithubProject_loose_marker _ None
            (js "ssh://git@") (js "GitHub") (js "COM") (js "octocat") (js "hello")
            (js ".git") 45 58 _ _ _ _ _ _ _ _ _) _).
  - repeat (constructor; [first [left; reflexivity|right; reflexivity]|]).
    constructor.
  - reflexivity.
  - repeat (constructor; [first [left; reflexivity|right; reflexivity]|]).
    constructor.
  - left. reflexivity.
  - reflexivity.
  - reflexivity.
  - left. reflexivity.
  - discriminate.
  - intros i Hi. do 10 (destruct i as [|i]; [reflexivity|]).
    simpl in Hi. lia.
  - exists (js "main" ++ [10]), (js "origin/main" ++ [10]),
      (js "ssh://git@GitHub-COM:octocat/hello.git" ++ [10]).
    repeat split; reflexivity.
Defined.

(** C8. [checkCredentials(token)] never throws: whatever the remote
    answers to the one "get authenticated identity" request, the promise
    resolves, to [true] when the request succeeded and to [false] when it
    failed; a failure leaves its message in one warning and nothing else. *)
Theorem checkCredentials_never_throws (env : Env) (token : jsstring) (w : World) :
  let response := users_getAuthenticated env (requests w) (token_auth token) in
  exists w',
    checkCredentials env token w
    = (Resolved (match response with Ok _ => true | Throw _ => false end), w') /\
    trace w' = trace w ++ EGetAuthenticated (token_auth token) response ::
                 match response with
                 | Ok _ => []
                 | Throw e => [EWrite (js "!") (error_message e)]
                 end /\
    requests w' = S (requests w) /\
    netrc_file w' = netrc_file w /\ github w' = github w.
Proof.
  intros response. exists (after_check env token w).
  split; [apply checkCredentials_run|]. repeat split.
Qed.

(** C5. When the three attempts of a run of [promptForToken] all fail
    validation, the process ends with exit status 1 right after the fatal
    message; nothing is returned or thrown to the caller, and the run saves
    nothing: the credential file is as it was. *)
Theorem promptForToken_three_failures (env : Env) (rc : option NetRC) (w : World) :
  (forall i, (i < 3)%nat -> validates env (requests w + i) (asked w + i) = false) ->
  exists w' events,
    promptForToken env rc None None w = (Exited 1, w') /\
    (1 ≠ 0)%N /\
    trace w' = trace w ++ events ++ [EWrite cross (js "Too many attempts"); EExit 1] /\
    saves (events ++ [EWrite cross (js "Too many attempts"); EExit 1]) = [] /\
    netrc_file w' = netrc_file w /\
    asked w' = (asked w + 3)%nat /\
    requests w' = (requests w + 3)%nat.
Proof.
  intros Hbad.
  destruct (failed_attempts_frame env 3 w)
    as (_ & Hf & _ & Ha & Hr & _ & events & Ht & Hs & _).
  exists (after_exit (Nat.iter 3 (after_failed_attempt env) w)), events.
  split; [|split; [done|]].
  - apply promptForToken_refused; simpl; auto with lia.
  - unfold after_exit; simpl in *. rewrite Ht, <- app_assoc.
    repeat split; try assumption.
    unfold saves in *. now rewrite omap_app, Hs.
Qed.

Lemma promptForToken_three_failures_witness :
  let env := example_env git_nowhere (js "wrong") true in
  exists w' events,
    promptForToken env None None None (initial_world ∅) = (Exited 1, w') /\
    (1 ≠ 0)%N /\
    trace w' = [] ++ events ++ [EWrite cross (js "Too many attempts"); EExit 1] /\
    saves (events ++ [EWrite cross (js "Too many attempts"); EExit 1]) = [] /\
    netrc_file w' = ∅ /\
    asked w' = 3%nat /\
    requests w' = 3%nat.
Proof.
  intros env.
  apply (promptForToken_three_failures env None (initial_world ∅)).
  intros i Hi. reflexivity.
Defined.

(** C9. The recursive call of [promptForToken] passes [rc] and
    [attempts + 1] only, so a retry runs with the default bound of 3
    whatever bound the first call was given.  Hence a call
    [promptForToken(rc, 0, m)] with [m >= 1] whose validations all fail
    ends the process after exactly 3 failed attempts, as the call with the
    default bound does. *)
Theorem promptForToken_bound_not_propagated
    (env : Env) (rc : NetRC) (m : nat) (w : World) :
  (1 <= m)%nat ->
  (forall i, (i < 3)%nat -> validates env (requests w + i) (asked w + i) = false) ->
  promptForToken env (Some rc) (Some 0%nat) (Some m) w
  = promptForToken env (Some rc) (Some 1%nat) None (after_failed_attempt env w) /\
  promptForToken env (Some rc) (Some 0%nat) (Some m) w
  = promptForToken env (Some rc) (Some 0%nat) (Some 3%nat) w /\
  exists w',
    promptForToken env (Some rc) (Some 0%nat) (Some m) w = (Exited 1, w') /\
    asked w' = (asked w + 3)%nat /\
    requests w' = (requests w + 3)%nat /\
    length (prompts (drop (length (trace w)) (trace w'))) = 3%nat.
Proof.
  intros Hm Hbad.
  assert (validates env (requests w) (asked w) = false) as H0
    by (rewrite <- (Nat.add_0_r (requests w)), <- (Nat.add_0_r (asked w));
        apply Hbad; lia).
  split; [|split].
  - now rewrite promptForToken_retry by (simpl; lia || exact H0).
  - now rewrite !(promptForToken_refused env (Some rc) (Some 0%nat)) by (simpl; auto with lia).
  - exists (after_exit (Nat.iter 3 (after_failed_attempt env) w)).
    split; [apply promptForToken_refused; simpl; auto with lia|].
    repeat split; try (simpl; lia).
    simpl. rewrite <- !app_assoc, drop_app_length. simpl.
    repeat match goal with
           | |- context [users_getAuthenticated ?e ?n ?a] =>
               destruct (users_getAuthenticated e n a)
           end; reflexivity.
Qed.

Lemma promptForToken_bound_not_propagated_witness :
  let env := example_env git_nowhere (js "wrong") true in
  exists w',
    promptForToken env (Some ∅) (Some 0%nat) (Some 5%nat) (initial_world ∅)
    = (Exited 1, w') /\
    asked w' = 3%nat /\ requests w' = 3%nat.
Proof.
  intros env.
  destruct (promptForToken_bound_not_propagated env ∅ 5 (initial_world ∅))
    as (_ & _ & w' & Hrun & Hasked & Hrequests & _).
  - lia.
  - intros i Hi. reflexivity.
  - exists w'. repeat split; assumption.
Defined.



(** C6 as stated fails: with a stale token stored for [github.com] and an
    accepted one for [api.github.com], [getGithubAPI] reads the first, has
    it refused, and prompts. *)
Lemma getGithubAPI_prompts_despite_valid_token :
  let env := example_env git_nowhere (js "good") false in
  let w := initial_world two_tokens in
  stored_valid_token env w /\
  prompts (trace (getGithubAPI env w).2)
  = [EPromptCredentials (js "octocat") (js "good"); EPromptSave false].
Proof.
  split.
  - exists api_github_com, (login_password (js "octocat") (js "good")), (js "good").
    split; [now right|]. repeat split.
  - reflexivity.
Qed.

(** C6, amended.  [getGithubAPI] reads one token from the credential file:
    the password of the [github.com] entry when that entry has one,
    otherwise the password of the [api.github.com] entry.  If that token is
    not empty and the remote accepts it, [getGithubAPI] returns a client
    without any interactive prompt. *)
Theorem getGithubAPI_stored_token_no_prompt (env : Env) (w : World) (token : jsstring) :
  stored_token (netrc_file w) = Some token ->
  truthy (Some token) = true ->
  users_getAuthenticated env (requests w) (token_auth token) = Ok () ->
  exists api w' events,
    getGithubAPI env w = (Resolved api, w') /\
    trace w' = trace w ++ events /\
    prompts events = [] /\
    asked w' = asked w /\ confirmed w' = confirmed w.
Proof.
  intros Hstored Htruthy Hvalid.
  destruct (github w) as [cached|] eqn:Hg.
  - exists cached, w, []. rewrite (getGithubAPI_cached env w cached Hg).
    now rewrite app_nil_r.
  - rewrite (getGithubAPI_uncached env w Hg).
    rewrite (getToken_stored env w token Hstored) by now destruct token.
    rewrite Hvalid. cbv zeta.
    eexists _, _, [EGetAuthenticated (token_auth token) (Ok ())].
    split; [reflexivity|]. simpl. rewrite Hvalid. repeat split.
Qed.

Lemma getGithubAPI_stored_token_no_prompt_witness :
  let env := example_env git_nowhere (js "unused") false in
  let w := initial_world (one_token (js "good")) in
  exists api w' events,
    getGithubAPI env w = (Resolved api, w') /\
    trace w' = trace w ++ events /\
    prompts events = [] /\
    asked w' = asked w /\ confirmed w' = confirmed w.
Proof.
  intros env w.
  apply (getGithubAPI_stored_token_no_prompt env w (js "good")); reflexivity.
Defined.

(** No call of [getGithubAPI] caches its client: from a state where the
    module variable holds nothing, two calls in a row never return the same
    object. *)
Lemma getGithubAPI_second_call_differs (env : Env) (w w1 w2 : World) (api1 api2 : Octokit) :
  github w = None ->
  getGithubAPI env w = (Resolved api1, w1) ->
  getGithubAPI env w1 = (Resolved api2, w2) ->
  github w1 = None /\ object_id api1 ≠ object_id api2.
Proof.
  intros Hg H1 H2.
  assert (github w1 = None) as Hg1.
  { pose proof (github_never_assigned env w) as H. rewrite H1 in H.
    simpl in H. congruence. }
  split; [exact Hg1|].
  apply (getGithubAPI_new_object env w api1 w1 Hg) in H1.
  apply (getGithubAPI_new_object env w1 api2 w2 Hg1) in H2. lia.
Qed.

(** C1.  In a fresh process whose credential file holds an accepted token,
    the first call of [getGithubAPI] creates a client and leaves the module
    variable [github] empty; the second call validates the token again and
    returns another object. *)
Theorem getGithubAPI_not_memoized :
  let env := example_env git_nowhere (js "unused") false in
  let first := getGithubAPI env (initial_world (one_token (js "good"))) in
  let second := getGithubAPI env first.2 in
  first.1 = Resolved (mkOctokit 1 (js "token good")) /\
  github first.2 = None /\
  second.1 = Resolved (mkOctokit 3 (js "token good")) /\
  trace second.2 = [EGetAuthenticated (js "token good") (Ok ());
                    EGetAuthenticated (js "token good") (Ok ())].
Proof. repeat split. Qed.

(** C3. Once [getGithubAPI] has returned a client,
    [dispatchEvent({owner, repo}, eventType)] sends exactly one
    [createDispatchEvent] request, with that [owner], [repo] and
    [event_type]; when the request succeeds the result is the message
    ["(owner/repo) eventType event dispatched."], which contains
    [owner/repo] and [eventType], and when it fails its error is the
    rejection.  A reference without [repoId] is treated as one with
    [repoId = owner/repo], and a textual target is first resolved as a
    directory by [resolveGithubProject], whose error rejects the call. *)
Theorem dispatchEvent_one_call
    (env : Env) (OWNER REPO eventType : jsstring) (w w1 : World) (api : Octokit) :
  getGithubAPI env w = (Resolved api, w1) ->
  let response :=
    repos_createDispatchEvent env (requests w1) (auth api) OWNER REPO eventType in
  let text := js "(" ++ (OWNER ++ js "/" ++ REPO) ++ js ") " ++ eventType
              ++ js " event dispatched." in
  let run := dispatchEvent env (inr (mkRef OWNER REPO None)) eventType w in
  run.1 = match response with
          | Ok _ => Resolved (mkDispatched text)
          | Throw e => Rejected e
          end /\
  trace run.2 = trace w1 ++ [ECreateDispatchEvent (auth api) OWNER REPO eventType response] /\
  dispatches (trace run.2) = dispatches (trace w) ++ [(OWNER, REPO, eventType)] /\
  includes (OWNER ++ js "/" ++ REPO) text = true /\
  includes eventType text = true /\
  run = dispatchEvent env (inr (mkRef OWNER REPO (Some (OWNER ++ js "/" ++ REPO))))
          eventType w /\
  forall dir,
    dispatchEvent env (inl dir) eventType w =
      match resolveGithubProject env (Some dir) with
      | Ok d => dispatchEvent env (inr (mkRef (owner d) (repo d) (Some (repoId d))))
                  eventType w
      | Throw e => (Rejected e, w)
      end.
Proof.
  intros Hapi response text run.
  assert (run = (match response with
                 | Ok _ => Resolved (mkDispatched text)
                 | Throw e => Rejected e
                 end,
                 mkWorld (github w1) (netrc_file w1) (next_object w1)
                         (asked w1) (confirmed w1) (S (requests w1))
                         (trace w1 ++ [ECreateDispatchEvent (auth api) OWNER REPO
                                         eventType response]))) as Hrun
    by apply (dispatchEvent_ref env OWNER REPO None eventType w api w1 Hapi).
  split; [now rewrite Hrun|]. split; [now rewrite Hrun|]. split.
  { rewrite Hrun. simpl.
    destruct (getGithubAPI_extends env w) as (_ & _ & events & Ht & Hd).
    rewrite Hapi in Ht. simpl in Ht. rewrite Ht.
    unfold dispatches in *. now rewrite !omap_app, Hd, app_nil_r. }
  split; [apply includes_app|]. split.
  { unfold text.
    replace (js "(" ++ (OWNER ++ js "/" ++ REPO) ++ js ") " ++ eventType
             ++ js " event dispatched.")
      with ((js "(" ++ (OWNER ++ js "/" ++ REPO) ++ js ") ") ++ eventType
            ++ js " event dispatched.")
      by now rewrite <- !app_assoc.
    apply includes_app. }
  split; [apply dispatchEvent_default_repoId|].
  intros dir. apply dispatchEvent_path.
Qed.

Lemma dispatchEvent_one_call_witness :
  let env := example_env git_nowhere (js "unused") false in
  let w := initial_world (one_token (js "good")) in
  let run := dispatchEvent env (inr (mkRef (js "a") (js "b") None)) (js "go") w in
  run.1 = Resolved (mkDispatched (js "(a/b) go event dispatched.")) /\
  dispatches (trace run.2) = [(js "a", js "b", js "go")] /\
  includes (js "a/b") (js "(a/b) go event dispatched.") = true /\
  includes (js "go") (js "(a/b) go event dispatched.") = true.
Proof.
  intros env w run.
  destruct (dispatchEvent_one_call env (js "a") (js "b") (js "go") w
              (getGithubAPI env w).2 (mkOctokit 1 (js "token good")) eq_refl)
    as (Hresult & _ & Hcalls & Ha & Hgo & _).
  repeat split; assumption.
Defined.

End Claims.

(** * Further properties *)

(** ** What the regular expression captures *)

Module RegexSound.
Import Regex Forms RegexFacts.





End RegexSound.

(** ** What a resolution returns *)

Section ResolvedFacts.
Import Regex Forms RegexFacts.

Lemma split_nonempty (sep : N) (s : jsstring) : split sep s ≠ [].
Proof.
  destruct s as [|c s]; simpl; [done|].
  destruct (c =? sep); [done|]. now destruct (split sep s).
Qed.

Lemma split_join (sep : N) (s : jsstring) : join sep (split sep s) = s.
Proof.
  induction s as [|c s IH]; [reflexivity|]. simpl.
  pose proof (split_nonempty sep s) as Hne.
  destruct (c =? sep) eqn:Hc.
  - apply N.eqb_eq in Hc as ->.
    destruct (split sep s) as [|h t] eqn:Hs; [done|].
    simpl in *. now rewrite IH.
  - destruct (split sep s) as [|h t] eqn:Hs; [done|].
    destruct t; simpl in *; now rewrite <- IH.
Qed.

Lemma split_parts_no_sep (sep : N) (s : jsstring) :
  Forall (fun part => sep ∉ part) (split sep s).
Proof.
  induction s as [|c s IH]; simpl.
  - constructor; [apply not_elem_of_nil|constructor].
  - destruct (N.eqb_spec c sep) as [->|Hc].
    + constructor; [apply not_elem_of_nil|exact IH].
    + pose proof (split_nonempty sep s) as Hne.
      destruct (split sep s) as [|h t]; [done|].
      apply Forall_cons in IH as [Hh Ht]. constructor; [|exact Ht].
      intros [->|Hin]%elem_of_cons; done.
Qed.

(** The first two parts of a split, and the separator between them, start
    the string. *)
Lemma split_first_two (sep : N) (s o r : jsstring) :
  split sep s !! 0%nat = Some o -> split sep s !! 1%nat = Some r ->
  (sep ∉ o) /\ (sep ∉ r) /\ (o ++ sep :: r) `prefix_of` s /\
  (length (split sep s) = 2%nat -> s = o ++ sep :: r).
Proof.
  intros Ho Hr. pose proof (split_parts_no_sep sep s) as Hparts.
  pose proof (split_join sep s) as Hjoin.
  destruct (split sep s) as [|o' [|r' more]]; try discriminate.
  injection Ho as ->. injection Hr as ->.
  apply Forall_cons in Hparts as [Hno Hparts].
  apply Forall_cons in Hparts as [Hnr _].
  repeat split; try done.
  - rewrite <- Hjoin. destruct more as [|x more]; simpl.
    + exists []. now rewrite app_nil_r.
    + exists (sep :: join sep (x :: more)). now rewrite <- !app_assoc.
  - intros Hlen. destruct more; [|discriminate]. now rewrite <- Hjoin.
Qed.

Variable env : Env.

(** How a description comes about. *)
Lemma resolve_Ok_inv dir d :
  resolveGithubProject env dir = Ok d ->
  exists url,
    upstream_fetch_url env (default (process_cwd env) dir) url /\
    match_group1 url = Some (repoId d) /\
    split 47 (repoId d) !! 0%nat = Some (owner d) /\
    split 47 (repoId d) !! 1%nat = Some (repo d) /\
    owner d ≠ [] /\ repo d ≠ [].
Proof.
  unfold resolveGithubProject. generalize (default (process_cwd env) dir).
  clear dir. intros dir H.
  destruct (execSync env (js "git rev-parse --abbrev-ref HEAD") dir)
    as [branch|e1] eqn:H1;
    [|unfold resolve_body in H; rewrite H1 in H; discriminate].
  destruct (execSync env (js "git rev-parse --abbrev-ref " ++ trim branch
                          ++ js "@{upstream}") dir)
    as [upstream|e2] eqn:H2;
    [|unfold resolve_body in H; rewrite H1, !result_bind_Ok, H2 in H; discriminate].
  destruct (execSync env (js "git remote get-url "
                          ++ interpolate (head (split 47 (trim upstream)))) dir)
    as [out|e3] eqn:H3;
    [|unfold resolve_body in H;
      rewrite H1, !result_bind_Ok, H2, !result_bind_Ok, H3 in H; discriminate].
  assert (upstream_fetch_url env dir (trim out)) as Hgit
    by (now exists branch, upstream, out).
  rewrite (resolve_body_url env _ _ Hgit) in H.
  exists (trim out). split; [exact Hgit|].
  destruct (match_group1 (trim out)) as [id|]; [|discriminate].
  destruct (split 47 id !! 0%nat) as [[|c o]|] eqn:Ho,
           (split 47 id !! 1%nat) as [[|c' r]|] eqn:Hr;
    try discriminate.
  simpl in H. injection H as <-. now simpl.
Qed.

End ResolvedFacts.

(** ** Every run of the credential flow *)

Section CredentialRuns.

Variable env : Env.

Lemma prompt_budget_le_3 attempts maxAttempts :
  (prompt_budget attempts maxAttempts <= 3)%nat.
Proof. unfold prompt_budget. destruct (_ <? _)%nat; lia. Qed.

(** [promptForToken_run], with the number of attempts bounded. *)
Lemma promptForToken_run_bounded rc attempts maxAttempts w :
  exists k,
    let w0 := Nat.iter k (after_failed_attempt env) w in
    ((k <= prompt_budget attempts maxAttempts)%nat /\
     promptForToken env rc attempts maxAttempts w = (Exited 1, after_exit w0))
    \/ ((k + 1 <= prompt_budget attempts maxAttempts)%nat /\
        validates env (requests w0) (asked w0) = true /\
        promptForToken env rc attempts maxAttempts w
        = (Resolved (answer_credentials env (asked w0)).2,
           after_accepted_attempt env (default (netrc_file w) rc) w0)).
Proof.
  remember (calls_left attempts maxAttempts) as n eqn:Hn.
  assert (calls_left attempts maxAttempts <= n)%nat as Hle by lia. clear Hn.
  revert rc attempts maxAttempts w Hle.
  induction n as [|n IH]; intros rc attempts maxAttempts w Hle;
    unfold calls_left in Hle; unfold prompt_budget;
    destruct (Nat.ltb_spec (default 0 attempts) (default 3 maxAttempts))%nat
      as [Hlt|Hge]; try lia.
  1,3: exists 0%nat; left; split; [lia|now apply promptForToken_exit].
  destruct (validates env (requests w) (asked w)) eqn:Hv.
  - exists 0%nat. right. split; [lia|]. split; [exact Hv|].
    now apply promptForToken_accept.
  - destruct (IH (Some (default (netrc_file w) rc))
                 (Some (default 0 attempts + 1)%nat) None
                 (after_failed_attempt env w)) as [k Hk].
    { unfold calls_left. simpl.
      destruct (Nat.ltb_spec (default 0 attempts + 1) 3)%nat; lia. }
    exists (S k). rewrite Nat.iter_succ_r.
    rewrite (promptForToken_retry env rc attempts maxAttempts w Hlt Hv).
    unfold prompt_budget in Hk. simpl in Hk.
    destruct (Nat.ltb_spec (default 0 attempts + 1) 3)%nat;
      destruct Hk as [[Hb Hrun]|(Hb & Hok & Hrun)];
      [left|right|left|right]; repeat split; try assumption; lia.
Qed.

(** What a run of [promptForToken] leaves behind, whatever its outcome. *)
Lemma promptForToken_summary rc attempts maxAttempts w :
  let run := promptForToken env rc attempts maxAttempts w in
  exists events,
    trace run.2 = trace w ++ events /\
    (asked w <= asked run.2 <= asked w + prompt_budget attempts maxAttempts)%nat /\
    (requests run.2 + asked w = requests w + asked run.2)%nat /\
    (EPromptSave true ∈ events \/
     (saves events = [] /\ netrc_file run.2 = netrc_file w)) /\
    match run.1 with
    | Resolved token =>
        (exists name, EPromptCredentials name token ∈ events) /\
        EGetAuthenticated (token_auth token) (Ok ()) ∈ events
    | Rejected _ => False
    | Exited code =>
        code = 1 /\ saves events = [] /\ netrc_file run.2 = netrc_file w
    end.
Proof.
  intros run. unfold run.
  destruct (promptForToken_run_bounded rc attempts maxAttempts w)
    as [k [[Hb H]|(Hb & Hok & H)]]; rewrite H;
    destruct (failed_attempts_frame env k w)
      as (_ & Hf & _ & Ha & Hr & _ & events & Ht & Hs & _);
    set (w0 := Nat.iter k (after_failed_attempt env) w) in *.
  - exists (events ++ [EWrite cross (js "Too many attempts"); EExit 1]).
    simpl. rewrite Ht, Ha, Hr, <- app_assoc.
    assert (saves (events ++ [EWrite cross (js "Too many attempts"); EExit 1]) = [])
      as Hs' by (unfold saves in *; now rewrite omap_app, Hs).
    repeat split; try assumption; try lia. now right.
  - eexists. unfold after_accepted_attempt; simpl.
    rewrite Ht, Ha, Hr, <- !app_assoc. split; [reflexivity|].
    repeat split; try lia.
    + destruct (answer_save env (confirmed w0)) eqn:Hsave.
      * left. apply elem_of_app. right. right. right. left.
      * right. split; [|exact Hf].
        unfold saves in *. now rewrite omap_app, Hs.
    + eexists. apply elem_of_app. right. left.
    + apply elem_of_app. right. right. left.
Qed.

Lemma getGithubAPI_phases w :
  github w = None ->
  getGithubAPI env w =
    match getToken env w with
    | (Resolved token, w1) => validated_client env token w1
    | (Rejected e, w1) => (Rejected e, w1)
    | (Exited code, w1) => (Exited code, w1)
    end.
Proof. intros Hg. unfold getGithubAPI. now rewrite Hg. Qed.

Lemma validated_client_run token w :
  validated_client env token w =
    let w1 := after_check env token w in
    match users_getAuthenticated env (requests w) (token_auth token) with
    | Ok _ => (Resolved (mkOctokit (next_object w1) (token_auth token)),
               after_new w1)
    | Throw _ =>
        match promptForToken env None None None w1 with
        | (Resolved token', w2) =>
            (Resolved (mkOctokit (next_object w2) (token_auth token')),
             after_new w2)
        | (Rejected e, w2) => (Rejected e, w2)
        | (Exited code, w2) => (Exited code, w2)
        end
    end.
Proof.
  unfold validated_client, mbind, Async_bind, async_bind.
  rewrite checkCredentials_run.
  destruct (users_getAuthenticated env (requests w) (token_auth token));
    simpl; [reflexivity|].
  now destruct (promptForToken env None None None (after_check env token w))
    as [[token'|e'|code'] w2].
Qed.

Lemma validated_client_summary token w :
  let run := validated_client env token w in
  exists events,
    trace run.2 = trace w ++ events /\
    (asked w <= asked run.2 <= asked w + 3)%nat /\
    (EPromptSave true ∈ events \/
     (saves events = [] /\ netrc_file run.2 = netrc_file w)) /\
    match run.1 with
    | Resolved api => EGetAuthenticated (auth api) (Ok ()) ∈ events
    | Rejected _ => False
    | Exited code => code = 1
    end.
Proof.
  intros run. unfold run. rewrite validated_client_run. cbv zeta.
  destruct (users_getAuthenticated env (requests w) (token_auth token))
    as [[]|e] eqn:Hresp.
  - unfold after_check. rewrite Hresp. simpl.
    eexists. split; [reflexivity|]. repeat split; try lia.
    + now right.
    + left.
  - destruct (promptForToken_summary None None None (after_check env token w))
      as (events & Ht & Ha & _ & Hsave & Hout).
    assert (prompt_budget None None = 3%nat) as Hb by reflexivity.
    rewrite Hb in Ha. clear Hb.
    exists ([EGetAuthenticated (token_auth token) (Throw e);
             EWrite (js "!") (error_message e)] ++ events).
    assert (trace (after_check env token w)
            = trace w ++ [EGetAuthenticated (token_auth token) (Throw e);
                          EWrite (js "!") (error_message e)]) as Ht1
      by (unfold after_check; now rewrite Hresp).
    assert (EPromptSave true ∈ [EGetAuthenticated (token_auth token) (Throw e);
                                 EWrite (js "!") (error_message e)] ++ events \/
            saves ([EGetAuthenticated (token_auth token) (Throw e);
                    EWrite (js "!") (error_message e)] ++ events) = []
            /\ netrc_file (promptForToken env None None None
                             (after_check env token w)).2 = netrc_file w) as Hsave'.
    { destruct Hsave as [Hin|[Hs Hf]]; [left|right].
      - apply elem_of_app. now right.
      - split; [|exact Hf]. unfold saves in *. now rewrite omap_app, Hs. }
    rewrite Ht1 in Ht. clear Ht1 Hsave.
    assert (asked (after_check env token w) = asked w) as Ha1 by reflexivity.
    rewrite Ha1 in Ha. clear Ha1.
    destruct (promptForToken env None None None (after_check env token w))
      as [[token'|e'|code] w2]; cbn [fst snd] in *; [| |];
      cbn [after_new trace asked netrc_file]; rewrite Ht, <- !app_assoc.
    + split; [reflexivity|]. split; [lia|]. split; [exact Hsave'|].
      apply elem_of_app. right. apply Hout.
    + destruct Hout.
    + split; [reflexivity|]. split; [lia|]. split; [exact Hsave'|apply Hout].
Qed.

Lemma getToken_run w :
  getToken env w =
    match stored_token (netrc_file w) with
    | Some (c :: t) => (Resolved (c :: t), w)
    | _ => promptForToken env (Some (netrc_file w)) None None w
    end.
Proof.
  destruct (stored_token (netrc_file w)) as [[|c t]|] eqn:Hs.
  - apply getToken_prompt. now rewrite Hs.
  - now apply getToken_stored.
  - apply getToken_prompt. now rewrite Hs.
Qed.

(** What a call of [getGithubAPI] that finds no cached client leaves
    behind, whatever its outcome. *)
Lemma getGithubAPI_summary w :
  github w = None ->
  let run := getGithubAPI env w in
  exists events,
    trace run.2 = trace w ++ events /\
    (asked w <= asked run.2 <= asked w + 6)%nat /\
    (EPromptSave true ∈ events \/
     (saves events = [] /\ netrc_file run.2 = netrc_file w)) /\
    match run.1 with
    | Resolved api => EGetAuthenticated (auth api) (Ok ()) ∈ events
    | Rejected _ => False
    | Exited code => code = 1
    end.
Proof.
  intros Hg run. unfold run. rewrite (getGithubAPI_phases w Hg), getToken_run.
  destruct (stored_token (netrc_file w)) as [[|c t]|] eqn:Hs.
  2: { cbv beta iota.
       destruct (validated_client_summary (c :: t) w)
         as (events & Ht & Ha & Hsave & Hout).
       exists events. repeat split; try assumption; lia. }
  all: destruct (promptForToken_summary (Some (netrc_file w)) None None w)
         as (ev1 & Ht1 & Ha1 & _ & Hsave1 & Hout1).
  all: assert (prompt_budget None None = 3%nat) as Hb by reflexivity.
  all: rewrite Hb in Ha1; clear Hb.
  all: destruct (promptForToken env (Some (netrc_file w)) None None w)
         as [[token|e|code] w1]; cbn [fst snd] in *; cbv beta iota.
  2,5: destruct Hout1.
  2,4: exists ev1; repeat split; try tauto; try lia; apply Hout1.
  all: destruct (validated_client_summary token w1)
         as (ev2 & Ht2 & Ha2 & Hsave2 & Hout2).
  all: exists (ev1 ++ ev2); rewrite Ht2, Ht1, <- app_assoc.
  all: split; [reflexivity|]; split; [lia|]; split.
  1,3: destruct Hsave1 as [Hin|[Hs1 Hf1]];
       [left; apply elem_of_app; now left|];
       destruct Hsave2 as [Hin|[Hs2 Hf2]];
       [left; apply elem_of_app; now right|];
       right; split; [unfold saves in *; now rewrite omap_app, Hs1, Hs2|congruence].
  all: destruct (validated_client env token w1) as [[api|e|code] w2];
       cbn [fst snd] in *; try exact Hout2.
  all: apply elem_of_app; now right.
Qed.

(** The [auth] option of a client [getGithubAPI] creates. *)
Lemma getGithubAPI_auth w :
  match (getGithubAPI env w).1 with
  | Resolved api => github w = None -> exists token, auth api = js "token " ++ token
  | _ => True
  end.
Proof.
  destruct (github w) as [cached|] eqn:Hg.
  { rewrite (getGithubAPI_cached env w cached Hg). discriminate. }
  rewrite (getGithubAPI_uncached env w Hg).
  destruct (getToken env w) as [[token|e|code] w1]; try exact I.
  cbv zeta.
  destruct (users_getAuthenticated env (requests w1) (token_auth token)).
  - intros _. now exists token.
  - destruct (promptForToken env None None None (after_check env token w1))
      as [[token'|e'|code'] w3]; try exact I.
    intros _. now exists token'.
Qed.

End CredentialRuns.

(** ** Properties beyond the claims *)

Section Extras.
Import Regex Forms RegexFacts RegexSound Examples.

(** X1. Given the records read from the credential file, [getToken] takes
    the password of the ["github.com"] entry, and that of the
    ["api.github.com"] entry only when the first entry has none.  A
    non-empty password is returned as it is, with no prompt, request or
    save; in every other case, an empty ["github.com"] password included
    whatever ["api.github.com"] holds, the user is prompted with the
    records just read. *)
Theorem getToken_lookup (env : Env) (w : World) :
  let rc := netrc_file w in
  match rc !! js "github.com" ≫= password,
        rc !! js "api.github.com" ≫= password with
  | Some (c :: t), _ => getToken env w = (Resolved (c :: t), w)
  | Some [], _ => getToken env w = promptForToken env (Some rc) None None w
  | None, Some (c :: t) => getToken env w = (Resolved (c :: t), w)
  | None, _ => getToken env w = promptForToken env (Some rc) None None w
  end.
Proof.
  intros rc. rewrite getToken_run. unfold stored_token, nullish. fold rc.
  change github_com with (js "github.com").
  change api_github_com with (js "api.github.com").
  destruct (rc !! js "github.com" ≫= password) as [[|c t]|]; try reflexivity.
  now destruct (rc !! js "api.github.com" ≫= password) as [[|c t]|].
Qed.

(** X2. For an attempt count that is a natural number, as in every call
    the module makes, and whatever [maxAttempts]: a call of
    [promptForToken] asks for credentials at most three times (not at all
    when [attempts >= maxAttempts]) and validates each token typed once.
    When it returns a token, that token is one the user typed and the
    remote accepted; when it ends the process, the status is 1 and
    [netrc.save] was not called. *)
Theorem promptForToken_outcome
    (env : Env) (rc : option NetRC) (attempts maxAttempts : option nat) (w : World) :
  let run := promptForToken env rc attempts maxAttempts w in
  exists events,
    trace run.2 = trace w ++ events /\
    (asked run.2 <= asked w + prompt_budget attempts maxAttempts)%nat /\
    (prompt_budget attempts maxAttempts <= 3)%nat /\
    (asked run.2 - asked w = requests run.2 - requests w)%nat /\
    match run.1 with
    | Resolved token =>
        (exists name, EPromptCredentials name token ∈ events) /\
        EGetAuthenticated (js "token " ++ token) (Ok ()) ∈ events
    | Rejected _ => True
    | Exited code => code = 1 /\ saves events = []
    end.
Proof.
  intros run.
  destruct (promptForToken_summary env rc attempts maxAttempts w)
    as (events & Ht & Ha & Hr & _ & Hout).
  exists events. fold run in Ht, Ha, Hr, Hout.
  split; [exact Ht|]. split; [lia|].
  split; [apply prompt_budget_le_3|]. split; [lia|].
  destruct run.1 as [token|e|code]; [exact Hout|exact I|].
  split; apply Hout.
Qed.

(** X3. A call of [getGithubAPI] that finds no cached client asks for
    credentials at most six times.  A client it returns carries, as
    [token <token>], a token the remote accepted during the call; when the
    call ends the process, the status is 1. *)
Theorem getGithubAPI_outcome (env : Env) (w : World) :
  github w = None ->
  let run := getGithubAPI env w in
  exists events,
    trace run.2 = trace w ++ events /\
    (asked run.2 <= asked w + 6)%nat /\
    match run.1 with
    | Resolved api =>
        EGetAuthenticated (auth api) (Ok ()) ∈ events /\
        exists token, auth api = js "token " ++ token
    | Rejected _ => True
    | Exited code => code = 1
    end.
Proof.
  intros Hg run.
  destruct (getGithubAPI_summary env w Hg) as (events & Ht & Ha & _ & Hout).
  exists events. fold run in Ht, Ha, Hout.
  split; [exact Ht|]. split; [lia|].
  pose proof (getGithubAPI_auth env w) as Hauth. fold run in Hauth.
  destruct run.1 as [api|e|code]; [|exact I|exact Hout].
  split; [exact Hout|exact (Hauth Hg)].
Qed.

Lemma getGithubAPI_outcome_witness :
  let env := example_env git_nowhere (js "good") false in
  let run := getGithubAPI env (initial_world two_tokens) in
  exists events,
    trace run.2 = [] ++ events /\
    (asked run.2 <= 0 + 6)%nat /\
    match run.1 with
    | Resolved api =>
        EGetAuthenticated (auth api) (Ok ()) ∈ events /\
        exists token, auth api = js "token " ++ token
    | Rejected _ => True
    | Exited code => code = 1
    end.
Proof.
  intros env.
  apply (getGithubAPI_outcome env (initial_world two_tokens)).
  reflexivity.
Defined.

(** X4. [getGithubAPI] writes the credential file only with the user's
    consent: in a call where no save confirmation was answered with yes,
    nothing is saved and the file is as it was. *)
Theorem getGithubAPI_saves_on_consent_only (env : Env) (w : World) :
  let run := getGithubAPI env w in
  exists events,
    trace run.2 = trace w ++ events /\
    (EPromptSave true ∈ events \/
     (saves events = [] /\ netrc_file run.2 = netrc_file w)).
Proof.
  intros run. destruct (github w) as [cached|] eqn:Hg.
  - exists []. unfold run. rewrite (getGithubAPI_cached env w cached Hg).
    simpl. rewrite app_nil_r. split; [reflexivity|]. now right.
  - destruct (getGithubAPI_summary env w Hg) as (events & Ht & _ & Hsave & _).
    exists events. now split.
Qed.

(** X5. When the credential file holds no usable token, the token the user
    types is validated twice: by [promptForToken], and again by
    [getGithubAPI] itself once [getToken] has returned it.  If the remote
    accepts it both times, the call makes two requests and one credentials
    prompt, and returns a client with that token. *)
Theorem getGithubAPI_validates_prompted_token_again (env : Env) (w : World) :
  github w = None ->
  truthy (stored_token (netrc_file w)) = false ->
  validates env (requests w) (asked w) = true ->
  let name := (answer_credentials env (asked w)).1 in
  let token := (answer_credentials env (asked w)).2 in
  let save := answer_save env (confirmed w) in
  users_getAuthenticated env (S (requests w)) (token_auth token) = Ok () ->
  let run := getGithubAPI env w in
  run.1 = Resolved (mkOctokit (S (S (next_object w))) (token_auth token)) /\
  requests run.2 = (requests w + 2)%nat /\
  asked run.2 = (asked w + 1)%nat /\
  trace run.2
  = trace w ++ [EPromptCredentials name token;
                EGetAuthenticated (token_auth token) (Ok ());
                EPromptSave save]
      ++ (if save
          then [ENetrcSave (<[github_com := login_password name token]> (netrc_file w))]
          else [])
      ++ [EGetAuthenticated (token_auth token) (Ok ())].
Proof.
  intros Hg Hstored Hfirst name token save Hsecond run. unfold run.
  rewrite (getGithubAPI_phases env w Hg), (getToken_prompt env w Hstored).
  rewrite promptForToken_accept by (simpl; lia || exact Hfirst).
  fold token. rewrite validated_client_run. cbv zeta.
  change (requests (after_accepted_attempt env (default (netrc_file w)
                      (Some (netrc_file w))) w)) with (S (requests w)).
  rewrite Hsecond. unfold after_check.
  change (requests (after_accepted_attempt env (default (netrc_file w)
                      (Some (netrc_file w))) w)) with (S (requests w)).
  rewrite Hsecond. simpl. fold name token save.
  repeat split; try lia. now rewrite <- !app_assoc.
Qed.

Lemma getGithubAPI_validates_prompted_token_again_witness :
  let env := example_env git_nowhere (js "good") false in
  let run := getGithubAPI env (initial_world ∅) in
  run.1 = Resolved (mkOctokit 2 (js "token good")) /\
  requests run.2 = 2%nat /\
  asked run.2 = 1%nat /\
  trace run.2
  = [EPromptCredentials (js "octocat") (js "good");
     EGetAuthenticated (js "token good") (Ok ());
     EPromptSave false;
     EGetAuthenticated (js "token good") (Ok ())].
Proof.
  intros env.
  apply (getGithubAPI_validates_prompted_token_again env (initial_world ∅));
    reflexivity.
Defined.

(** X6. [dispatchEvent] resolves a textual target before anything else:
    when the resolution fails, the call rejects with the resolution error
    and has had no effect, neither a read of the credentials, nor a prompt,
    nor a request. *)
Theorem dispatchEvent_unresolved_path
    (env : Env) (dir eventType : jsstring) (w : World) :
  ResolutionFailure env dir ->
  dispatchEvent env (inl dir) eventType w
  = (Rejected (mkError (js "Not in a git repository?")), w).
Proof.
  intros Hfail. rewrite dispatchEvent_path.
  now rewrite (resolve_fails env (Some dir) Hfail).
Qed.

Lemma dispatchEvent_unresolved_path_witness :
  dispatchEvent (example_env git_nowhere (js "good") true) (inl (js "/tmp"))
    (js "build") (initial_world ∅)
  = (Rejected (mkError (js "Not in a git repository?")), initial_world ∅).
Proof.
  apply dispatchEvent_unresolved_path.
  now apply (NotARepository _ _ command_failed).
Defined.

(** X7. No client, no dispatch: when [getGithubAPI] ends the process,
    [dispatchEvent] ends with it and no [createDispatchEvent] request has
    been sent. *)
Theorem dispatchEvent_no_client
    (env : Env) (ref : RepositoryRef) (eventType : jsstring)
    (w w1 : World) (code : N) :
  getGithubAPI env w = (Exited code, w1) ->
  let run := dispatchEvent env (inr ref) eventType w in
  run = (Exited code, w1) /\
  dispatches (trace run.2) = dispatches (trace w).
Proof.
  intros Hexit run.
  assert (run = (Exited code, w1)) as Hrun.
  { unfold run, dispatchEvent. unfold mbind at 1, Async_bind, async_bind at 1.
    simpl. unfold mbind at 1, async_bind at 1. now rewrite Hexit. }
  split; [exact Hrun|]. rewrite Hrun. simpl.
  destruct (getGithubAPI_extends env w) as (_ & _ & events & Ht & Hd).
  rewrite Hexit in Ht. simpl in Ht. rewrite Ht.
  unfold dispatches in *. now rewrite omap_app, Hd, app_nil_r.
Qed.

Lemma dispatchEvent_no_client_witness :
  let env := example_env git_nowhere (js "wrong") true in
  let w := initial_world ∅ in
  let run := dispatchEvent env (inr (mkRef (js "a") (js "b") None)) (js "go") w in
  run = (Exited 1, after_exit (Nat.iter 3 (after_failed_attempt env) w)) /\
  dispatches (trace run.2) = dispatches (trace w).
Proof.
  intros env w.
  apply (dispatchEvent_no_client env (mkRef (js "a") (js "b") None) (js "go") w
           (after_exit (Nat.iter 3 (after_failed_attempt env) w)) 1).
  rewrite (getGithubAPI_phases env w eq_refl), (getToken_prompt env w eq_refl).
  rewrite (promptForToken_refused env (Some (netrc_file w)) None None w eq_refl).
  - reflexivity.
  - simpl. lia.
  - intros i Hi. reflexivity.
Defined.



(** X9. In a resolved description, [owner] and [repo] are not empty and
    hold no [/], and [repoId] starts with [owner/repo]; it is exactly
    [owner/repo] when the URL has two path segments after the marker, and
    keeps the further segments otherwise. *)
Theorem resolveGithubProject_description
    (env : Env) (dir : option jsstring) (d : GitHubRepositoryDescription) :
  resolveGithubProject env dir = Ok d ->
  owner d ≠ [] /\ repo d ≠ [] /\
  (47 ∉ owner d) /\ (47 ∉ repo d) /\
  (owner d ++ js "/" ++ repo d) `prefix_of` repoId d /\
  (length (split 47 (repoId d)) = 2%nat -> repoId d = owner d ++ js "/" ++ repo d).
Proof.
  intros Hok.
  destruct (resolve_Ok_inv env dir d Hok) as (url & _ & _ & Ho & Hr & Hno & Hnr).
  destruct (split_first_two 47 (repoId d) (owner d) (repo d) Ho Hr)
    as (Hso & Hsr & Hpre & Htwo).
  repeat split; assumption.
Qed.

Lemma resolveGithubProject_description_witness :
  let d := mkDescription (js "octocat") (js "hello") (js "octocat/hello/tree/main") in
  owner d ≠ [] /\ repo d ≠ [] /\
  (47 ∉ owner d) /\ (47 ∉ repo d) /\
  (owner d ++ js "/" ++ repo d) `prefix_of` repoId d /\
  (length (split 47 (repoId d)) = 2%nat -> repoId d = owner d ++ js "/" ++ repo d).
Proof.
  intros d.
  apply (resolveGithubProject_description
           (example_env (git_checkout (js "https://github.com/octocat/hello/tree/main"))
                        [] false) None d).
  reflexivity.
Defined.

(** X10. For a directory whose remote URL has exactly two path segments
    after the marker, dispatching to the directory and dispatching to the
    [{owner, repo}] it resolves to are the same call: the default [repoId]
    that [dispatchEvent] joins from [owner] and [repo] is the [repoId] the
    resolution read from the URL. *)
Theorem dispatchEvent_path_as_ref
    (env : Env) (dir eventType : jsstring) (d : GitHubRepositoryDescription)
    (w : World) :
  resolveGithubProject env (Some dir) = Ok d ->
  length (split 47 (repoId d)) = 2%nat ->
  join 47 [owner d; repo d] = repoId d /\
  dispatchEvent env (inl dir) eventType w
  = dispatchEvent env (inr (mkRef (owner d) (repo d) None)) eventType w.
Proof.
  intros Hok Htwo.
  destruct (resolve_Ok_inv env (Some dir) d Hok) as (url & _ & _ & Ho & Hr & _).
  destruct (split_first_two 47 (repoId d) (owner d) (repo d) Ho Hr)
    as (_ & _ & _ & Heq).
  specialize (Heq Htwo).
  assert (join 47 [owner d; repo d] = repoId d) as Hjoin by now rewrite Heq.
  split; [exact Hjoin|].
  rewrite dispatchEvent_path, Hok, dispatchEvent_default_repoId.
  change (owner d ++ js "/" ++ repo d) with (join 47 [owner d; repo d]).
  now rewrite Hjoin.
Qed.

Lemma dispatchEvent_path_as_ref_witness :
  let env := example_env (git_checkout (js "git@github.com:octocat/hello.git"))
               (js "good") false in
  let d := mkDescription (js "octocat") (js "hello") (js "octocat/hello") in
  join 47 [owner d; repo d] = repoId d /\
  dispatchEvent env (inl (js "/work")) (js "build") (initial_world ∅)
  = dispatchEvent env (inr (mkRef (owner d) (repo d) None)) (js "build")
      (initial_world ∅).
Proof.
  intros env d.
  apply (dispatchEvent_path_as_ref env (js "/work") (js "build") d (initial_world ∅));
    reflexivity.
Defined.

(** X11. [getGithubAPI] never assigns the module variable [github]: after
    a call that found it empty it is still empty, so the next call goes
    through the credentials again and returns a client that is another
    object. *)
Theorem getGithubAPI_never_caches
    (env : Env) (w w1 w2 : World) (api1 api2 : Octokit) :
  github w = None ->
  getGithubAPI env w = (Resolved api1, w1) ->
  getGithubAPI env w1 = (Resolved api2, w2) ->
  github w1 = None /\
  (object_id api1 < object_id api2)%nat /\
  exists events,
    trace w2 = trace w1 ++ events /\
    EGetAuthenticated (auth api2) (Ok ()) ∈ events.
Proof.
  intros Hg H1 H2.
  assert (github w1 = None) as Hg1.
  { pose proof (github_never_assigned env w) as H. rewrite H1 in H.
    simpl in H. congruence. }
  split; [exact Hg1|]. split.
  - apply (getGithubAPI_new_object env w api1 w1 Hg) in H1.
    apply (getGithubAPI_new_object env w1 api2 w2 Hg1) in H2. lia.
  - destruct (getGithubAPI_summary env w1 Hg1) as (events & Ht & _ & _ & Hout).
    rewrite H2 in Ht, Hout. simpl in Ht, Hout. now exists events.
Qed.

Lemma getGithubAPI_never_caches_witness :
  let env := example_env git_nowhere (js "unused") false in
  let w := initial_world (one_token (js "good")) in
  let api1 := mkOctokit 1 (js "token good") in
  let api2 := mkOctokit 3 (js "token good") in
  let w1 := (getGithubAPI env w).2 in
  let w2 := (getGithubAPI env w1).2 in
  github w1 = None /\
  (object_id api1 < object_id api2)%nat /\
  exists events,
    trace w2 = trace w1 ++ events /\
    EGetAuthenticated (auth api2) (Ok ()) ∈ events.
Proof.
  intros env w api1 api2 w1 w2.
  apply (getGithubAPI_never_caches env w w1 w2 api1 api2); reflexivity.
Defined.

End Extras.
